(** * noter-backend: the permission-gated views of [main/views.py]

    A shallow embedding of the Django REST framework views of
    [src/noter_backend/main/views.py]: the relational store is an explicit
    state, a view method is a computation in a state-and-exception monad,
    and the framework's exception handling turns an outcome into an HTTP
    response. *)

From Stdlib Require Import Ascii String.
From stdpp Require Import base gmap sets list strings.

(** ** Python string methods used by the views *)

Module Py.

(** [str.lower] on the ASCII range. *)
Definition lower_ascii (c : ascii) : ascii :=
  let n := nat_of_ascii c in
  if ((65 <=? n)%nat && (n <=? 90)%nat)%bool then ascii_of_nat (n + 32) else c.

Fixpoint lower (s : string) : string :=
  match s with
  | EmptyString => EmptyString
  | String c s' => String (lower_ascii c) (lower s')
  end.

Definition is_space (c : ascii) : bool :=
  let n := nat_of_ascii c in
  ((n =? 32)%nat || ((9 <=? n)%nat && (n <=? 13)%nat))%bool.

Definition is_empty (s : string) : bool :=
  match s with EmptyString => true | _ => false end.

Fixpoint lstrip (p : ascii -> bool) (s : string) : string :=
  match s with
  | EmptyString => EmptyString
  | String c s' => if p c then lstrip p s' else s
  end.

Fixpoint rstrip (p : ascii -> bool) (s : string) : string :=
  match s with
  | EmptyString => EmptyString
  | String c s' =>
      let r := rstrip p s' in
      if p c && is_empty r then EmptyString else String c r
  end.

(** [s.strip(chars)] for a one-character [chars], and [s.strip()]. *)
Definition strip_char (c : ascii) (s : string) : string :=
  rstrip (Ascii.eqb c) (lstrip (Ascii.eqb c) s).

Definition strip (s : string) : string :=
  rstrip is_space (lstrip is_space s).

(** [s.split(sep)] for a one-character separator: never the empty list. *)
Fixpoint split (sep : ascii) (s : string) : list string :=
  match s with
  | EmptyString => [EmptyString]
  | String c s' =>
      if Ascii.eqb c sep then EmptyString :: split sep s'
      else match split sep s' with
           | h :: t => String c h :: t
           | [] => [String c EmptyString]
           end
  end.

(** [l[-1]] on the result of a split. *)
Definition last_item (l : list string) : string := List.last l EmptyString.

End Py.

(** ** Data model *)

(** Rows of the tables the views touch.  [models.py] is not part of the
    sources at hand; the fields are those the views read or write
    ([request.user.email], [owner_email], [project_id], [image_id],
    [serializer.data['image']], [Group.name]). *)

Record User := mkUser { user_id : nat; user_email : string }.
Record Group := mkGroup { group_id : nat; group_name : string }.
Record Project := mkProject { project_id : nat; project_owner_email : string }.
Record Image := mkImage {
  image_id : nat;
  image_owner_email : string;
  image_project_id : nat;
  image_file : string
}.
Record AnnotationsJson := mkAnnotationsJson {
  annotations_id : nat;
  annotations_owner_email : string;
  annotations_image_id : nat;
  annotations_payload : string
}.

(** The store.  Tables are lists in table order, which is the order in which
    a query set yields its rows.  [user_groups] is the many-to-many relation
    behind [user.groups] (pairs user id, group id); [view_obj] holds the
    object-level [view_obj] grants of django-guardian (pairs group id,
    image id). *)
Record Store := mkStore {
  users : list User;
  groups : list Group;
  projects : list Project;
  images : list Image;
  annotations : list AnnotationsJson;
  user_groups : gset (nat * nat);
  view_obj : gset (nat * nat)
}.

Definition set_view_obj (p : gset (nat * nat)) (st : Store) : Store :=
  mkStore (users st) (groups st) (projects st) (images st) (annotations st)
          (user_groups st) p.

Definition set_user_groups (m : gset (nat * nat)) (st : Store) : Store :=
  mkStore (users st) (groups st) (projects st) (images st) (annotations st)
          m (view_obj st).

Definition set_groups (g : list Group) (st : Store) : Store :=
  mkStore (users st) g (projects st) (images st) (annotations st)
          (user_groups st) (view_obj st).

Definition set_images (l : list Image) (st : Store) : Store :=
  mkStore (users st) (groups st) (projects st) l (annotations st)
          (user_groups st) (view_obj st).

Definition set_projects (l : list Project) (st : Store) : Store :=
  mkStore (users st) (groups st) l (images st) (annotations st)
          (user_groups st) (view_obj st).

(** The id of the public group: [Group.objects.get(id=1)]. *)
Definition PUBLIC_GROUP_ID : nat := 1.

(** ** Requests and responses *)

Inductive Method := GET | HEAD | OPTIONS | POST | PUT | PATCH | DELETE.

(** [rest_framework.permissions.SAFE_METHODS] *)
Definition is_safe (m : Method) : bool :=
  match m with GET | HEAD | OPTIONS => true | _ => false end.

(** A value that [request.data] holds under [public]: a string, as every
    form field is, or a JSON value that is no string (a boolean, a number,
    null, a list, an object), on which [.lower()] is an [AttributeError]. *)
Inductive Value :=
| VStr (s : string)
| VOther.

(** [request.data], with the keys the views look up.  A key that is absent
    is [None]; [image_ids] and [group_ids] carry lists of primary keys,
    [email] and [name] carry strings. *)
Record Data := mkData {
  d_image_ids : option (list nat);
  d_group_ids : option (list nat);
  d_public : option Value;
  d_email : option string;
  d_name : option string
}.

Definition no_data : Data := mkData None None None None None.

Record Request := mkRequest {
  req_user : User;
  req_method : Method;
  req_data : Data
}.

Inductive Body :=
| BEmpty
| BImage (i : Image)
| BImages (l : list Image)
| BProject (p : Project)
| BAnnotations (a : AnnotationsJson)
| BGroup (g : Group)
| BErrors.

Record Response := mkResponse {
  status : nat;
  body : Body;
  headers : list (string * string)
}.

Definition Response_status (n : nat) : Response := mkResponse n BEmpty [].
Definition Response_data (n : nat) (b : Body) : Response := mkResponse n b [].

(** ** Exceptions and the view monad *)

Inductive Model := MUser | MGroup | MImage | MProject | MAnnotationsJson.

Global Instance Model_eq_dec : EqDecision Model.
Proof. solve_decision. Defined.

Inductive Exn :=
| Http404
| PermissionDenied
| DoesNotExist (m : Model)
| MultipleObjectsReturned (m : Model)
| KeyError (key : string)
| AttributeError (name : string)
| TypeError.

Inductive Outcome (A : Type) :=
| Ok (a : A)
| Raise (e : Exn).
Arguments Ok {A} a.
Arguments Raise {A} e.

(** A computation reads and writes the store and may raise.  Writes made
    before an exception stay in the store: the views open no transaction
    and Django commits each write as it is made unless configured
    otherwise.  Requests come from an authenticated user: [request.user] is
    a row of the user table. *)
Definition M (A : Type) : Type := Store -> Outcome A * Store.

Global Instance M_ret : MRet M := fun A a st => (Ok a, st).

Global Instance M_bind : MBind M := fun A B f m st =>
  match m st with
  | (Ok a, st') => f a st'
  | (Raise e, st') => (Raise e, st')
  end.

Definition raise {A} (e : Exn) : M A := fun st => (Raise e, st).
Definition get_store : M Store := fun st => (Ok st, st).
Definition modify (f : Store -> Store) : M unit := fun st => (Ok tt, f st).

(** [try: m except <caught>: raise Http404] *)
Definition try_except_404 {A} (m : M A) (caught : Exn -> bool) : M A :=
  fun st =>
    match m st with
    | (Raise e, st') => if caught e then (Raise Http404, st') else (Raise e, st')
    | r => r
    end.

(** [for x in l: body(x)] *)
Fixpoint for_each {A} (body : A -> M unit) (l : list A) : M unit :=
  match l with
  | [] => mret tt
  | x :: l' => body x ;; for_each body l'
  end.

(** What the framework makes of an exception that leaves a view method:
    [Http404] and [PermissionDenied] are handled by the REST framework, any
    other exception is a server error. *)
Definition handle_exception (e : Exn) : Response :=
  match e with
  | Http404 => Response_status 404
  | PermissionDenied => Response_status 403
  | _ => Response_status 500
  end.

Definition respond (m : M Response) (st : Store) : Response * Store :=
  match m st with
  | (Ok r, st') => (r, st')
  | (Raise e, st') => (handle_exception e, st')
  end.

(** ** The object-relational layer *)

(** [Model.objects]: the table of a model in the store, its primary key and
    the tag its [DoesNotExist] exception carries. *)
Class DjangoModel (A : Type) := {
  model_tag : Model;
  objects_all : Store -> list A;
  pk : A -> nat
}.

Global Instance User_model : DjangoModel User :=
  {| model_tag := MUser; objects_all := users; pk := user_id |}.
Global Instance Group_model : DjangoModel Group :=
  {| model_tag := MGroup; objects_all := groups; pk := group_id |}.
Global Instance Project_model : DjangoModel Project :=
  {| model_tag := MProject; objects_all := projects; pk := project_id |}.
Global Instance Image_model : DjangoModel Image :=
  {| model_tag := MImage; objects_all := images; pk := image_id |}.
Global Instance AnnotationsJson_model : DjangoModel AnnotationsJson :=
  {| model_tag := MAnnotationsJson; objects_all := annotations;
     pk := annotations_id |}.

(** [Model.objects.get(<lookup>)]: the one matching row, [DoesNotExist] when
    there is none, [MultipleObjectsReturned] when there are several. *)
Definition objects_get {A} `{DjangoModel A} (p : A -> bool) : M A :=
  fun st =>
    match List.filter p (objects_all st) with
    | [] => (Raise (DoesNotExist model_tag), st)
    | [x] => (Ok x, st)
    | _ => (Raise (MultipleObjectsReturned model_tag), st)
    end.

(** [Model.objects.filter(id__in=ids)]: the matching rows, in table order. *)
Definition objects_filter_id_in {A} `{DjangoModel A} (ids : list nat) : M (list A) :=
  fun st => (Ok (List.filter (fun x => bool_decide (pk x ∈ ids)) (objects_all st)), st).

Definition is_DoesNotExist (m : Model) (e : Exn) : bool :=
  match e with
  | DoesNotExist m' => bool_decide (m' = m)
  | _ => false
  end.

(** [get_object_or_404(Model, pk)] of [views.py]. *)
Definition get_object_or_404 (A : Type) `{DjangoModel A} (k : nat) : M A :=
  try_except_404 (objects_get (fun x => pk x =? k)) (is_DoesNotExist model_tag).

(** [guardian.shortcuts.assign_perm('view_obj', group, image)] and
    [remove_perm]: the grants form a set, so granting twice is granting
    once. *)
Definition assign_perm (group : Group) (image : Image) : M unit :=
  modify (fun st => set_view_obj ({[ (group_id group, image_id image) ]} ∪ view_obj st) st).

Definition remove_perm (group : Group) (image : Image) : M unit :=
  modify (fun st => set_view_obj (view_obj st ∖ {[ (group_id group, image_id image) ]}) st).

(** [user.groups.add(group)], [user.groups.filter(name=name).exists()]. *)
Definition groups_add (user : User) (group : Group) : M unit :=
  modify (fun st => set_user_groups ({[ (user_id user, group_id group) ]} ∪ user_groups st) st).

(** [user.groups.remove(group)] *)
Definition groups_remove (user : User) (group : Group) : M unit :=
  modify (fun st => set_user_groups (user_groups st ∖ {[ (user_id user, group_id group) ]}) st).

Definition in_group_named (st : Store) (user : User) (name : string) : bool :=
  existsb (fun g => String.eqb (group_name g) name
                    && bool_decide ((user_id user, group_id g) ∈ user_groups st))
          (groups st).

Definition groups_filter_name_exists (user : User) (name : string) : M bool :=
  fun st => (Ok (in_group_named st user name), st).

(** [image.delete()]: the row with that primary key leaves the table. *)
Definition Image_delete (image : Image) : M unit :=
  modify (fun st => set_images (List.filter (fun i => negb (image_id i =? image_id image)) (images st)) st).

(** The next value of an auto-increment primary key. *)
Definition next_pk (ids : list nat) : nat := S (list_max ids).

(** ** Permission classes *)

(** The objects a permission class is asked about. *)
Inductive Obj :=
| ObjImage (i : Image)
| ObjProject (p : Project)
| ObjAnnotations (a : AnnotationsJson).

Definition owner_email (o : Obj) : string :=
  match o with
  | ObjImage i => image_owner_email i
  | ObjProject p => project_owner_email p
  | ObjAnnotations a => annotations_owner_email a
  end.

(** [rest_framework.permissions.BasePermission]: a view-level and an
    object-level check. *)
Record Permission := mkPermission {
  has_permission : Store -> Request -> bool;
  has_object_permission : Store -> Request -> Obj -> bool
}.

(** [BasePermission] answers [True] where a class does not override. *)
Definition base_has_permission : Store -> Request -> bool := fun _ _ => true.

(** [A | B] on permission classes. *)
Definition perm_or (a b : Permission) : Permission :=
  {| has_permission := fun st r => has_permission a st r || has_permission b st r;
     has_object_permission := fun st r o =>
       has_object_permission a st r o || has_object_permission b st r o |}.

Definition is_owner (r : Request) (o : Obj) : bool :=
  String.eqb (owner_email o) (user_email (req_user r)).

(** Some group the user belongs to holds a [view_obj] grant on the image. *)
Definition group_has_view (st : Store) (u : User) (i : Image) : bool :=
  existsb (fun gi => (snd gi =? image_id i)
                     && bool_decide ((user_id u, fst gi) ∈ user_groups st))
          (elements (view_obj st)).

Definition is_public (st : Store) (i : Image) : bool :=
  bool_decide ((PUBLIC_GROUP_ID, image_id i) ∈ view_obj st).

(** Modelled from the spec: [main/permissions.py] is missing.
    [OwnerOrRefuse]: true only if requester owns the resource (any
    method). *)
Definition IsOwnerOrRefuse : Permission :=
  {| has_permission := base_has_permission;
     has_object_permission := fun _ r o => is_owner r o |}.

(** Modelled from the spec: [main/permissions.py] is missing.
    [OwnerAndReadOnly]: true if requester owns the resource AND the request
    is a read. *)
Definition IsOwnerAndReadOnlyOrRefuse : Permission :=
  {| has_permission := base_has_permission;
     has_object_permission := fun _ r o => is_owner r o && is_safe (req_method r) |}.

(** Modelled from the spec: [main/permissions.py] is missing.
    [ReadOnlyAndHasAccess]: true if request is read AND requester belongs to
    a group granted view permission on the resource. *)
Definition IsReadOnlyAndHasAccessOrRefuse : Permission :=
  {| has_permission := base_has_permission;
     has_object_permission := fun st r o =>
       is_safe (req_method r)
       && match o with
          | ObjImage i => group_has_view st (req_user r) i
          | _ => false
          end |}.

(** Modelled from the spec: [main/permissions.py] is missing.
    [ReadOnlyAndPublic]: true if request is read AND the resource's grant
    set includes the public group. *)
Definition IsReadOnlyAndPublicOrRefuse : Permission :=
  {| has_permission := base_has_permission;
     has_object_permission := fun st r o =>
       is_safe (req_method r)
       && match o with
          | ObjImage i => is_public st i
          | _ => false
          end |}.

(** Modelled from the spec: [main/permissions.py] is missing.
    [OwnerOrReadOnly]: true if requester owns resource, OR (request is read
    AND unconditionally allowed). *)
Definition IsOwnerOrReadOnly : Permission :=
  {| has_permission := base_has_permission;
     has_object_permission := fun _ r o => is_owner r o || is_safe (req_method r) |}.

(** [APIView.check_object_permissions]: every class of the view must agree,
    otherwise [permission_denied] raises. *)
Definition check_object_permissions (classes : list Permission)
    (r : Request) (o : Obj) : M unit :=
  fun st =>
    if forallb (fun p => has_object_permission p st r o) classes
    then (Ok tt, st)
    else (Raise PermissionDenied, st).

(** [APIView.check_permissions], run by [initial] before the handler
    method is called. *)
Definition check_permissions (classes : list Permission) (r : Request) : M unit :=
  fun st =>
    if forallb (fun p => has_permission p st r) classes
    then (Ok tt, st)
    else (Raise PermissionDenied, st).

(** [APIView.dispatch] for a request whose method the view handles. *)
Definition dispatch (classes : list Permission) (r : Request) (handler : M Response) :
    M Response :=
  check_permissions classes r ;; handler.

(** ** Views *)

(** The process environment read by [GetImage.get], and the signing
    service of [noter_backend.generate_signed_urls], which is external. *)
Record Environ := mkEnviron {
  NOTER_GS_MEDIA_BUCKET_NAME : option string;
  GOOGLE_APPLICATION_CREDENTIALS : option string;
  generate_signed_url :
    option string -> string -> option string -> string -> string -> nat -> string
}.

Definition slash : ascii := "/"%char.

Module GetImage.

Definition permission_classes : list Permission :=
  [perm_or (perm_or IsOwnerAndReadOnlyOrRefuse IsReadOnlyAndHasAccessOrRefuse)
           IsReadOnlyAndPublicOrRefuse].

Definition get_object (request : Request) (k : nat) : M Image :=
  try_except_404
    (image ← objects_get (fun i : Image => pk i =? k);
     check_object_permissions permission_classes request (ObjImage image);;
     mret image)
    (is_DoesNotExist MImage).

(** The value of the [X-Accel-Redirect] header. *)
Definition redirect_path (env : Environ) (image : Image) : string :=
  let path := Py.last_item (Py.split slash (Py.strip_char slash (image_file image))) in
  let bucket := default ""%string (NOTER_GS_MEDIA_BUCKET_NAME env) in
  let path :=
    if negb (Py.is_empty (Py.strip bucket))
    then generate_signed_url env (GOOGLE_APPLICATION_CREDENTIALS env) "GET"%string
           (NOTER_GS_MEDIA_BUCKET_NAME env) path ""%string 900
    else path in
  ("/protected_media/" ++ Py.strip_char slash path)%string.

Definition get (env : Environ) (request : Request) (k : nat) : M Response :=
  image ← get_object request k;
  mret (mkResponse 200 BEmpty
          [("Content-Type", ""); ("Method", "GET");
           ("X-Accel-Redirect", redirect_path env image)]%string).

End GetImage.

Module ShareImages.

Definition permission_classes : list Permission := [IsOwnerOrRefuse].

(** [request.data['public']]: a [KeyError] when the key is absent. *)
Definition data_public (d : Data) : M Value :=
  match d_public d with
  | Some v => mret v
  | None => raise (KeyError "public")
  end.

Definition is_true (v : string) : bool := String.eqb (Py.lower v) "true".

(** [v.lower() == 'true']: an [AttributeError] when [v] is no string. *)
Definition lower_is_true (v : Value) : M bool :=
  match v with
  | VStr s => mret (is_true s)
  | VOther => raise (AttributeError "lower")
  end.

(** The test of the first [if] of [post], evaluated left to right with the
    short cuts of [or] and [and]: the request is refused when it holds. *)
Definition post_test (d : Data) : M bool :=
  if negb (bool_decide (is_Some (d_image_ids d))) then mret (M:=M) true
  else if bool_decide (is_Some (d_group_ids d)) then mret (M:=M) false
  else match d_public d with
       | None => mret (M:=M) true
       | Some v => flag ← lower_is_true v; mret (negb flag)
       end.

(** The request does not get past the first [if] of [post]:
    [post_invalid d = false] exactly when the test evaluates to [False]. *)
Definition post_invalid (d : Data) : bool :=
  negb (bool_decide (is_Some (d_image_ids d)))
  || negb (bool_decide (is_Some (d_group_ids d))
           || match d_public d with Some (VStr v) => is_true v | _ => false end).

Definition post_image (request : Request) (image : Image) : M unit :=
  check_object_permissions permission_classes request (ObjImage image);;
  public ← data_public (req_data request);
  flag ← lower_is_true public;
  (if flag : bool
   then public_group ← objects_get (fun g : Group => pk g =? PUBLIC_GROUP_ID);
        assign_perm public_group image
   else mret tt);;
  match d_group_ids (req_data request) with
  | Some gids =>
      gs ← objects_filter_id_in (A:=Group) gids;
      for_each (fun group => assign_perm group image) gs
  | None => mret tt
  end.

Definition post (request : Request) : M Response :=
  refused ← post_test (req_data request);
  if refused : bool then mret (Response_status 400)
  else
    imgs ← objects_filter_id_in (A:=Image) (default [] (d_image_ids (req_data request)));
    for_each (post_image request) imgs;;
    mret (Response_status 200).

Definition delete_invalid (d : Data) : bool :=
  negb (bool_decide (is_Some (d_image_ids d)))
  || negb (bool_decide (is_Some (d_group_ids d))).

Definition delete_image (request : Request) (image : Image) : M unit :=
  check_object_permissions permission_classes request (ObjImage image);;
  gs ← objects_filter_id_in (A:=Group) (default [] (d_group_ids (req_data request)));
  for_each (fun group => remove_perm group image) gs.

Definition delete (request : Request) : M Response :=
  if delete_invalid (req_data request) then mret (Response_status 400)
  else
    imgs ← objects_filter_id_in (A:=Image) (default [] (d_image_ids (req_data request)));
    for_each (delete_image request) imgs;;
    mret (Response_status 200).

End ShareImages.

Module CreateGroup.

(** [GroupSerializer] lives in [main/serializers.py], which is missing: its
    validation is a parameter, answering the validated name when
    [is_valid()] holds.  [serializer.save()] inserts the group under the
    next primary key, which is [serializer.data['id']]. *)
Definition post (GroupSerializer_is_valid : Store -> Data -> option string)
    (request : Request) : M Response :=
  st ← get_store;
  match GroupSerializer_is_valid st (req_data request) with
  | Some name =>
      let saved := mkGroup (next_pk (List.map group_id (groups st))) name in
      modify (fun st => set_groups (groups st ++ [saved]) st);;
      group ← get_object_or_404 Group (group_id saved);
      groups_add (req_user request) group;;
      mret (Response_data 201 (BGroup saved))
  | None => mret (Response_data 400 BErrors)
  end.

End CreateGroup.

Module CreateProject.

(** [ProjectSerializer] lives in [main/serializers.py], which is missing: its
    validation is a parameter.  [serializer.save(owner_email=...)] inserts
    the project under the next primary key, owned by the requester. *)
Definition post (ProjectSerializer_is_valid : Store -> Data -> bool)
    (request : Request) : M Response :=
  st ← get_store;
  if ProjectSerializer_is_valid st (req_data request)
  then
    let saved := mkProject (next_pk (List.map project_id (projects st)))
                           (user_email (req_user request)) in
    modify (fun st => set_projects (projects st ++ [saved]) st);;
    mret (Response_data 201 (BProject saved))
  else mret (Response_data 400 BErrors).

End CreateProject.

Module JoinGroup.

Definition get_user_or_404 (email : string) : M User :=
  try_except_404 (objects_get (fun u : User => String.eqb (user_email u) email))
                 (is_DoesNotExist MUser).

(** The [except] clause names [User.DoesNotExist], as in the source. *)
Definition get_group_or_404 (name : string) : M Group :=
  try_except_404 (objects_get (fun g : Group => String.eqb (group_name g) name))
                 (is_DoesNotExist MUser).

Definition post (request : Request) (group_name : string) : M Response :=
  member ← groups_filter_name_exists (req_user request) group_name;
  if negb member then mret (Response_status 403)
  else match d_email (req_data request) with
       | None => mret (Response_status 400)
       | Some email =>
           user ← get_user_or_404 email;
           group ← get_group_or_404 group_name;
           groups_add user group;;
           mret (Response_status 200)
       end.

Definition delete (request : Request) (group_name : string) : M Response :=
  member ← groups_filter_name_exists (req_user request) group_name;
  if negb member then mret (Response_status 403)
  else match d_email (req_data request) with
       | None => mret (Response_status 400)
       | Some email =>
           user ← get_user_or_404 email;
           group ← get_group_or_404 group_name;
           groups_remove user group;;
           mret (Response_status 200)
       end.

End JoinGroup.

(** The project settings are not part of the sources at hand: the
    permission classes of a view that declares none are a parameter. *)
Record Settings := mkSettings {
  DEFAULT_PERMISSION_CLASSES : list Permission
}.

(** [rest_framework.permissions.AllowAny], the framework's own default. *)
Definition AllowAny : Permission :=
  {| has_permission := base_has_permission;
     has_object_permission := fun _ _ _ => true |}.

Module generics.

(** [GenericAPIView.get_object]: look the row up by primary key (404 when
    absent), then check the object permissions of the view. *)
Definition get_object (A : Type) `{DjangoModel A} (obj : A -> Obj)
    (classes : list Permission) (request : Request) (k : nat) : M A :=
  x ← get_object_or_404 A k;
  check_object_permissions classes request (obj x);;
  mret x.

(** [RetrieveAPIView.get] over a given [get_object]. *)
Definition retrieve {A} (get_object : M A) (serialize : A -> Body) : M Response :=
  instance ← get_object;
  mret (Response_data 200 (serialize instance)).

End generics.

(** Python values that can follow [**] in a call. *)
Inductive PyValue :=
| PyBuiltin (name : string)
| PyMapping (kw : list (string * nat)).

(** [f(..., **v)]: [v] must be a mapping. *)
Definition unpack_kwargs (v : PyValue) : M (list (string * nat)) :=
  match v with
  | PyMapping kw => mret kw
  | PyBuiltin _ => raise TypeError
  end.

Module ProjectDetail.

Definition permission_classes : list Permission := [IsOwnerOrReadOnly].

(** No [filter] is bound in [get_object] or in the module: the name is the
    builtin. *)
Definition filter : PyValue := PyBuiltin "filter".

(** [get_object_or_404(queryset, **kw)] with the function of [views.py],
    whose parameters are [Model] and [pk]: its body asks the query set for
    [.objects], which a query set does not have. *)
Definition get_object_or_404_queryset (kw : list (string * nat)) : M Project :=
  match kw with
  | [(key, _)] => if String.eqb key "pk" then raise (AttributeError "objects")
                  else raise TypeError
  | _ => raise TypeError
  end.

Definition get_object (request : Request) : M Project :=
  kw ← unpack_kwargs filter;
  obj ← get_object_or_404_queryset kw;
  check_object_permissions permission_classes request (ObjProject obj);;
  mret obj.

Definition get (request : Request) (k : nat) : M Response :=
  generics.retrieve (get_object request) BProject.

End ProjectDetail.

Module AnnotationsJsonDetail.

(** The view declares no [permission_classes]. *)
Definition get (cfg : Settings) (request : Request) (k : nat) : M Response :=
  generics.retrieve
    (generics.get_object AnnotationsJson ObjAnnotations
       (DEFAULT_PERMISSION_CLASSES cfg) request k)
    BAnnotations.

End AnnotationsJsonDetail.

Module ImageList.

Definition get (request : Request) : M Response :=
  st ← get_store;
  mret (Response_data 200 (BImages (images st))).

End ImageList.

Module ImageDetail.

Definition permission_classes : list Permission := [IsOwnerOrRefuse].

Definition get_object (request : Request) (k : nat) : M Image :=
  try_except_404
    (image ← objects_get (fun i : Image => pk i =? k);
     check_object_permissions permission_classes request (ObjImage image);;
     mret image)
    (is_DoesNotExist MImage).

Definition get (request : Request) (k : nat) : M Response :=
  image ← get_object request k;
  mret (Response_data 200 (BImage image)).

Definition delete (request : Request) (k : nat) : M Response :=
  image ← get_object request k;
  Image_delete image;;
  mret (Response_status 204).

End ImageDetail.

(** ** Vocabulary of the statements *)

(** Primary keys, group names and user emails identify their rows. *)
Definition unique_pk {A} `{DjangoModel A} (st : Store) : Prop :=
  NoDup (List.map pk (objects_all (A:=A) st)).

Definition unique_group_names (st : Store) : Prop :=
  NoDup (List.map group_name (groups st)).

Definition unique_emails (st : Store) : Prop :=
  NoDup (List.map user_email (users st)).

Definition owns (u : User) (i : Image) : Prop :=
  image_owner_email i = user_email u.

Definition in_granted_group (st : Store) (u : User) (i : Image) : Prop :=
  ∃ g, (user_id u, g) ∈ user_groups st ∧ (g, image_id i) ∈ view_obj st.

Definition public (st : Store) (i : Image) : Prop :=
  (PUBLIC_GROUP_ID, image_id i) ∈ view_obj st.

Definition can_view (st : Store) (u : User) (i : Image) : Prop :=
  owns u i ∨ in_granted_group st u i ∨ public st i.

(** The rows [ShareImages] iterates over: the images and groups that the
    request lists and the store holds, in table order. *)
Definition referenced_images (st : Store) (r : Request) : list Image :=
  List.filter (fun x : Image => bool_decide (image_id x ∈ default [] (d_image_ids (req_data r))))
              (images st).

Definition listed_groups (st : Store) (r : Request) : list Group :=
  List.filter (fun g : Group => bool_decide (group_id g ∈ default [] (d_group_ids (req_data r))))
              (groups st).

(** The grant set after the inner and the outer loop of [ShareImages.post]
    and [ShareImages.delete] have run to their end. *)
Definition grant_all (gs : list Group) (i : Image) (P : gset (nat * nat)) : gset (nat * nat) :=
  foldl (fun Q g => {[ (group_id g, image_id i) ]} ∪ Q) P gs.

Definition revoke_all (gs : list Group) (i : Image) (P : gset (nat * nat)) : gset (nat * nat) :=
  foldl (fun Q g => Q ∖ {[ (group_id g, image_id i) ]}) P gs.

Definition grant_batch (gs : list Group) (imgs : list Image) (P : gset (nat * nat)) :
    gset (nat * nat) :=
  foldl (fun Q i => grant_all gs i Q) P imgs.

Definition revoke_batch (gs : list Group) (imgs : list Image) (P : gset (nat * nat)) :
    gset (nat * nat) :=
  foldl (fun Q i => revoke_all gs i Q) P imgs.

(** The pairs (group, image) of a batch. *)
Definition batch_pair (gs : list Group) (imgs : list Image) (x : nat * nat) : Prop :=
  ∃ g i, In g gs ∧ In i imgs ∧ x = (group_id g, image_id i).

(** The two requests of the sharing endpoint: a grant ([POST]) and a revoke
    ([DELETE]) for the listed images and groups. *)
Definition grant_request (u : User) (iids gids : list nat) (flag : option string) : Request :=
  mkRequest u POST (mkData (Some iids) (Some gids) (VStr <$> flag) None None).

Definition revoke_request (u : User) (iids gids : list nat) : Request :=
  mkRequest u DELETE (mkData (Some iids) (Some gids) None None None).

(** The response of a view method, and the store it leaves. *)
Definition response_of (m : M Response) (st : Store) : Response := fst (respond m st).
Definition store_after (m : M Response) (st : Store) : Store := snd (respond m st).

(** ** A small store for the examples *)

Module Demo.

Definition alice : User := mkUser 1 "alice@example.org".
Definition bob : User := mkUser 2 "bob@example.org".
Definition carol : User := mkUser 3 "carol@example.org".

Definition public_group : Group := mkGroup 1 "public".
Definition team : Group := mkGroup 2 "team".

Definition img1 : Image := mkImage 1 "alice@example.org" 1 "/media/scans/a.png".
Definition img2 : Image := mkImage 2 "bob@example.org" 1 "/media/scans/b.png".

Definition prj1 : Project := mkProject 1 "alice@example.org".
Definition ann1 : AnnotationsJson := mkAnnotationsJson 1 "alice@example.org" 1 "{}".

(** Bob is a member of [team]; nothing is shared. *)
Definition store0 : Store :=
  mkStore [alice; bob; carol] [public_group; team] [prj1] [img1; img2] [ann1]
          {[ (2, 2) ]} ∅.

(** As [store0], with [team] holding a view grant on [img1]. *)
Definition store1 : Store := set_view_obj {[ (2, 1) ]} store0.

(** As [store0], with [img1] shared with [team] and with the public. *)
Definition store2 : Store := set_view_obj {[ (2, 1); (1, 1) ]} store0.

Definition env0 : Environ := mkEnviron None None (fun _ _ _ object_name _ _ => object_name).

Definition get_by (u : User) : Request := mkRequest u GET no_data.
Definition delete_by (u : User) : Request := mkRequest u DELETE no_data.

Definition join (u : User) (email : string) : Request :=
  mkRequest u POST (mkData None None None (Some email) None).

Definition create_group (u : User) (name : string) : Request :=
  mkRequest u POST (mkData None None None None (Some name)).

(** A serializer that accepts any request carrying a name. *)
Definition name_required : Store -> Data -> option string := fun _ d => d_name d.

Definition drf_defaults : Settings := mkSettings [AllowAny].

End Demo.

(** ** Vocabulary of the further properties *)

(** Two stores that differ at most in the view grants, and at most in the
    group memberships. *)
Definition same_but_view_obj (st st' : Store) : Prop :=
  st' = set_view_obj (view_obj st') st.

Definition same_but_user_groups (st st' : Store) : Prop :=
  st' = set_user_groups (user_groups st') st.

(** Every membership and every view grant names the key of a stored
    group. *)
Definition memberships_in_groups (st : Store) : Prop :=
  ∀ u g, (u, g) ∈ user_groups st -> In g (List.map group_id (groups st)).

Definition grants_in_groups (st : Store) : Prop :=
  ∀ g i, (g, i) ∈ view_obj st -> In g (List.map group_id (groups st)).

(** The string holds the character. *)
Fixpoint has_char (c : ascii) (s : string) : bool :=
  match s with
  | EmptyString => false
  | String a s' => Ascii.eqb a c || has_char c s'
  end.

(** The file name that [GetImage.get] takes from the stored path. *)
Definition file_name (image : Image) : string :=
  Py.last_item (Py.split slash (Py.strip_char slash (image_file image))).

(** The environment names no bucket, or a blank one. *)
Definition no_bucket (env : Environ) : Prop :=
  Py.strip (default ""%string (NOTER_GS_MEDIA_BUCKET_NAME env)) = ""%string.

(** The pairs that one iteration of [ShareImages.post] over an image writes:
    the public group when the flag reads true, and every listed group. *)
Definition public_flag (r : Request) : bool :=
  match d_public (req_data r) with
  | Some (VStr v) => ShareImages.is_true v
  | _ => false
  end.

Definition granted_by (st : Store) (r : Request) (i : Image) (x : nat * nat) : Prop :=
  snd x = image_id i
  ∧ ((fst x = PUBLIC_GROUP_ID ∧ public_flag r = true)
     ∨ ∃ g, In g (listed_groups st r) ∧ fst x = group_id g).

(** The pairs that one iteration of [ShareImages.delete] removes. *)
Definition revoked_by (st : Store) (r : Request) (i : Image) (x : nat * nat) : Prop :=
  snd x = image_id i ∧ ∃ g, In g (listed_groups st r) ∧ fst x = group_id g.

(** The public group is stored, under a key that identifies it. *)
Definition public_group_stored (st : Store) : Prop :=
  ∃ g, List.filter (fun g : Group => group_id g =? PUBLIC_GROUP_ID) (groups st) = [g].

(** [Demo.store0] without its public group. *)
Definition store_without_public : Store := set_groups [Demo.team] Demo.store0.

(** The rows that [User.objects.get(email=...)] and
    [Group.objects.get(name=...)] choose from. *)
Definition users_with_email (st : Store) (email : string) : list User :=
  List.filter (fun u : User => String.eqb (user_email u) email) (users st).

Definition groups_named (st : Store) (name : string) : list Group :=
  List.filter (fun g : Group => String.eqb (group_name g) name) (groups st).

(** [Demo.store0] with a fourth user who has Carol's email. *)
Definition store_shared_email : Store :=
  mkStore (users Demo.store0 ++ [mkUser 4 "carol@example.org"]) (groups Demo.store0)
          (projects Demo.store0) (images Demo.store0) (annotations Demo.store0)
          (user_groups Demo.store0) (view_obj Demo.store0).

(** ** Basic facts *)

Ltac unfold_monad :=
  unfold response_of, store_after, respond, generics.retrieve, generics.get_object,
    get_object_or_404, try_except_404, objects_get, objects_filter_id_in,
    check_object_permissions, groups_filter_name_exists, groups_add,
    assign_perm, remove_perm, Image_delete, raise, get_store, modify,
    mbind, M_bind, mret, M_ret in *.

Ltac simpl_model :=
  cbn [pk objects_all model_tag User_model Group_model Project_model
       Image_model AnnotationsJson_model] in *.

Lemma filter_none {A : Type} (p : A -> bool) (l : list A) :
  (∀ y, In y l -> p y = false) -> List.filter p l = [].
Proof.
  induction l as [|a l IH]; simpl; intros Hall; [done|].
  rewrite (Hall a) by auto. apply IH. intros y Hy. apply Hall. auto.
Qed.

Lemma filter_unique {A K : Type} (key : A -> K) (p : A -> bool) (k : K)
    (l : list A) (x : A) :
  (∀ y, p y = true ↔ key y = k) ->
  NoDup (List.map key l) -> In x l -> key x = k ->
  List.filter p l = [x].
Proof.
  intros Hp. induction l as [|a l IH]; simpl; intros Hnd Hin Hk; [done|].
  apply NoDup_cons in Hnd as [Hna Hnd].
  destruct Hin as [->|Hin].
  - assert (Hpx : p x = true) by (by apply Hp). rewrite Hpx. f_equal.
    apply filter_none. intros y Hy.
    destruct (p y) eqn:Hy'; [|done]. apply Hp in Hy'.
    exfalso. apply Hna. rewrite Hk, <- Hy'. apply list_elem_of_In, in_map, Hy.
  - destruct (p a) eqn:Ha.
    + apply Hp in Ha. exfalso. apply Hna.
      rewrite Ha, <- Hk. apply list_elem_of_In, in_map, Hin.
    + by apply IH.
Qed.

Lemma filter_pk {A} `{DjangoModel A} (st : Store) (x : A) :
  unique_pk (A:=A) st -> In x (objects_all st) ->
  List.filter (fun y => pk y =? pk x) (objects_all st) = [x].
Proof.
  intros Hnd Hin. apply (filter_unique pk _ (pk x)); auto.
  intros y. apply Nat.eqb_eq.
Qed.

Example lower_mixed_case : Py.lower "TrUe" = "true"%string.
Proof. reflexivity. Qed.

Example split_on_slash : Py.split slash "a/b//c" = ["a"; "b"; ""; "c"]%string.
Proof. reflexivity. Qed.

Example strip_slashes : Py.strip_char slash "//a/b//" = "a/b"%string.
Proof. reflexivity. Qed.

Example redirect_local : GetImage.redirect_path Demo.env0 Demo.img1 = "/protected_media/a.png"%string.
Proof. reflexivity. Qed.

(** The permission classes that the views declare leave the view-level
    check to [BasePermission]: every request reaches the handler method. *)
Lemma dispatch_declared (classes : list Permission) (r : Request) (handler : M Response)
    (st : Store) :
  In classes [GetImage.permission_classes; ShareImages.permission_classes;
              ProjectDetail.permission_classes; ImageDetail.permission_classes] ->
  dispatch classes r handler st = handler st.
Proof.
  intros Hin. unfold dispatch, check_permissions, mbind, M_bind.
  simpl in Hin. destruct Hin as [<-|[<-|[<-|[<-|[]]]]]; reflexivity.
Qed.

Lemma group_has_view_spec (st : Store) (u : User) (i : Image) :
  group_has_view st u i = true ↔ in_granted_group st u i.
Proof.
  unfold group_has_view, in_granted_group. rewrite existsb_exists. split.
  - intros [[g j] [Hin Hb]]. simpl in Hb.
    apply andb_true_iff in Hb as [Hj Hm].
    apply Nat.eqb_eq in Hj. apply bool_decide_eq_true in Hm. subst j.
    exists g. split; [done|].
    apply list_elem_of_In in Hin. by apply elem_of_elements in Hin.
  - intros [g [Hm Hv]]. exists (g, image_id i). split.
    + apply list_elem_of_In. by apply elem_of_elements.
    + simpl. rewrite Nat.eqb_refl. simpl. by apply bool_decide_eq_true.
Qed.

Lemma is_public_spec (st : Store) (i : Image) :
  is_public st i = true ↔ public st i.
Proof. unfold is_public, public. apply bool_decide_eq_true. Qed.

Lemma is_owner_image_spec (r : Request) (i : Image) :
  is_owner r (ObjImage i) = true ↔ owns (req_user r) i.
Proof. unfold is_owner, owns. simpl. apply String.eqb_eq. Qed.

(** The composed predicate of [GetImage] on a read request. *)
Lemma GetImage_predicate_spec (st : Store) (r : Request) (i : Image) :
  is_safe (req_method r) = true ->
  forallb (fun p => has_object_permission p st r (ObjImage i))
          GetImage.permission_classes = true
  ↔ can_view st (req_user r) i.
Proof.
  intros Hsafe. unfold GetImage.permission_classes, can_view. simpl.
  rewrite Hsafe, andb_true_r, andb_true_r. simpl.
  rewrite !orb_true_iff.
  rewrite is_owner_image_spec, group_has_view_spec, is_public_spec. tauto.
Qed.

(** ** Image lookup in [GetImage] and [ImageDetail] *)

Lemma GetImage_get_object_found (st : Store) (r : Request) (i : Image) :
  unique_pk (A:=Image) st -> In i (images st) ->
  GetImage.get_object r (image_id i) st =
    if forallb (fun p => has_object_permission p st r (ObjImage i))
               GetImage.permission_classes
    then (Ok i, st) else (Raise PermissionDenied, st).
Proof.
  intros Hnd Hin. unfold GetImage.get_object. unfold_monad.
  pose proof (filter_pk st i Hnd Hin) as Hf. simpl_model. rewrite Hf.
  by destruct (forallb _ GetImage.permission_classes).
Qed.

Lemma GetImage_get_object_absent (st : Store) (r : Request) (k : nat) :
  (∀ i, In i (images st) -> image_id i ≠ k) ->
  GetImage.get_object r k st = (Raise Http404, st).
Proof.
  intros Habs. unfold GetImage.get_object. unfold_monad.
  rewrite filter_none; [done|].
  intros y Hy. apply Nat.eqb_neq. by apply Habs.
Qed.

Lemma ImageDetail_get_object_found (st : Store) (r : Request) (i : Image) :
  unique_pk (A:=Image) st -> In i (images st) ->
  ImageDetail.get_object r (image_id i) st =
    if is_owner r (ObjImage i) then (Ok i, st) else (Raise PermissionDenied, st).
Proof.
  intros Hnd Hin. unfold ImageDetail.get_object. unfold_monad.
  pose proof (filter_pk st i Hnd Hin) as Hf. simpl_model. rewrite Hf.
  simpl. by destruct (is_owner r (ObjImage i)).
Qed.

Lemma ImageDetail_get_object_absent (st : Store) (r : Request) (k : nat) :
  (∀ i, In i (images st) -> image_id i ≠ k) ->
  ImageDetail.get_object r k st = (Raise Http404, st).
Proof.
  intros Habs. unfold ImageDetail.get_object. unfold_monad.
  rewrite filter_none; [done|].
  intros y Hy. apply Nat.eqb_neq. by apply Habs.
Qed.

(** Whatever [ImageDetail.get_object] returns is a stored image with the
    requested key that the requester owns. *)
Lemma ImageDetail_get_object_ok (st st' : Store) (r : Request) (k : nat) (i : Image) :
  ImageDetail.get_object r k st = (Ok i, st') ->
  st' = st ∧ In i (images st) ∧ image_id i = k ∧ owns (req_user r) i.
Proof.
  unfold ImageDetail.get_object. unfold_monad. simpl.
  destruct (List.filter _ (images st)) as [|x [|y l]] eqn:Hf; simpl; try done.
  rewrite andb_true_r.
  destruct (is_owner r (ObjImage x)) eqn:Ho; [|done].
  intros [= <- <-].
  assert (Hx : In x (List.filter (fun i0 => image_id i0 =? k) (images st)))
    by (rewrite Hf; simpl; auto).
  apply filter_In in Hx as [Hin Hk]. apply Nat.eqb_eq in Hk.
  split_and!; auto. by apply is_owner_image_spec.
Qed.

(** ** Claims *)

(** C1. On a GET request for a stored image, [GetImage] answers 200 exactly
    when the requester owns the image, or belongs to a group holding a view
    grant on it, or the public group holds a view grant on it; every other
    GET request for that image is answered 403, and a GET for a key that no
    image carries is answered 404. *)
Theorem GetImage_get_allowed_iff (env : Environ) (st : Store) (r : Request) (i : Image) :
  unique_pk (A:=Image) st -> In i (images st) -> req_method r = GET ->
  (status (response_of (GetImage.get env r (image_id i)) st) = 200
     ↔ can_view st (req_user r) i)
  ∧ (¬ can_view st (req_user r) i ->
     respond (GetImage.get env r (image_id i)) st = (Response_status 403, st))
  ∧ (∀ k, (∀ j, In j (images st) -> image_id j ≠ k) ->
     respond (GetImage.get env r k) st = (Response_status 404, st)).
Proof.
  intros Hnd Hin Hget.
  assert (Hsafe : is_safe (req_method r) = true) by (by rewrite Hget).
  pose proof (GetImage_predicate_spec st r i Hsafe) as Hspec.
  pose proof (GetImage_get_object_found st r i Hnd Hin) as Hobj.
  unfold response_of, respond, GetImage.get, mbind, M_bind.
  split_and!.
  - rewrite Hobj.
    destruct (forallb _ GetImage.permission_classes); simpl.
    + split; [intros _; by apply Hspec | done].
    + split; [done | intros Hv; by apply Hspec in Hv].
  - intros Hno. rewrite Hobj.
    destruct (forallb _ GetImage.permission_classes); [|done].
    exfalso. by apply Hno, Hspec.
  - intros k Habs. by rewrite GetImage_get_object_absent.
Qed.

Lemma GetImage_get_allowed_iff_witness :
  (status (response_of (GetImage.get Demo.env0 (Demo.get_by Demo.bob) 1) Demo.store1) = 200
     ↔ can_view Demo.store1 Demo.bob Demo.img1)
  ∧ (¬ can_view Demo.store1 Demo.bob Demo.img1 ->
     respond (GetImage.get Demo.env0 (Demo.get_by Demo.bob) 1) Demo.store1
       = (Response_status 403, Demo.store1))
  ∧ (∀ k, (∀ j, In j (images Demo.store1) -> image_id j ≠ k) ->
     respond (GetImage.get Demo.env0 (Demo.get_by Demo.bob) k) Demo.store1
       = (Response_status 404, Demo.store1)).
Proof.
  apply (GetImage_get_allowed_iff Demo.env0 Demo.store1 (Demo.get_by Demo.bob) Demo.img1).
  - apply (bool_decide_unpack _). vm_compute. exact I.
  - simpl. auto.
  - reflexivity.
Defined.

(** C10. The image-detail endpoint answers a GET for a stored image with
    200 exactly when the requester owns the image; a requester who does not
    own it is answered 403 whatever view grants a group of theirs or the
    public group hold on the image. *)
Theorem ImageDetail_get_owner_only (st : Store) (r : Request) (i : Image) :
  unique_pk (A:=Image) st -> In i (images st) ->
  (status (response_of (ImageDetail.get r (image_id i)) st) = 200
     ↔ owns (req_user r) i)
  ∧ (¬ owns (req_user r) i ->
     respond (ImageDetail.get r (image_id i)) st = (Response_status 403, st)).
Proof.
  intros Hnd Hin.
  pose proof (ImageDetail_get_object_found st r i Hnd Hin) as Hobj.
  pose proof (is_owner_image_spec r i) as Hown.
  unfold response_of, respond, ImageDetail.get, mbind, M_bind.
  rewrite Hobj. destruct (is_owner r (ObjImage i)); simpl.
  - split; [split; [intros _; by apply Hown | done]|].
    intros Hno. exfalso. by apply Hno, Hown.
  - split; [|done]. split; [done|]. intros Ho. by apply Hown in Ho.
Qed.

Lemma ImageDetail_get_owner_only_witness :
  (status (response_of (ImageDetail.get (Demo.get_by Demo.bob) 1) Demo.store2) = 200
     ↔ owns Demo.bob Demo.img1)
  ∧ (¬ owns Demo.bob Demo.img1 ->
     respond (ImageDetail.get (Demo.get_by Demo.bob) 1) Demo.store2
       = (Response_status 403, Demo.store2)).
Proof.
  apply (ImageDetail_get_owner_only Demo.store2 (Demo.get_by Demo.bob) Demo.img1).
  - apply (bool_decide_unpack _). vm_compute. exact I.
  - simpl. auto.
Defined.

(** Bob may fetch the media of the shared, public image, but not its
    record. *)
Example shared_media_but_not_record :
  status (response_of (GetImage.get Demo.env0 (Demo.get_by Demo.bob) 1) Demo.store2) = 200
  ∧ status (response_of (ImageDetail.get (Demo.get_by Demo.bob) 1) Demo.store2) = 403
  ∧ status (response_of (ImageDetail.get (Demo.get_by Demo.alice) 1) Demo.store2) = 200.
Proof. vm_compute. auto. Qed.

Lemma Image_delete_gone (st : Store) (i : Image) :
  ∀ j, In j (images (set_images
         (List.filter (fun x => negb (image_id x =? image_id i)) (images st)) st)) ->
       image_id j ≠ image_id i.
Proof.
  intros j Hj. simpl in Hj. apply filter_In in Hj as [_ Hj].
  apply negb_true_iff, Nat.eqb_neq in Hj. done.
Qed.

(** C8. For a stored image, a delete request by a requester who does not
    own it is answered 403 and leaves the store as it was; a delete request
    by the owner is answered 204, no image carries that key afterwards, and
    a retrieval of that key by anyone, through the detail endpoint or the
    media endpoint, is then answered 404. *)
Theorem ImageDetail_delete_owner_only (st : Store) (r : Request) (i : Image) :
  unique_pk (A:=Image) st -> In i (images st) ->
  (¬ owns (req_user r) i ->
     respond (ImageDetail.delete r (image_id i)) st = (Response_status 403, st))
  ∧ (owns (req_user r) i ->
     response_of (ImageDetail.delete r (image_id i)) st = Response_status 204
     ∧ ∀ st', st' = store_after (ImageDetail.delete r (image_id i)) st ->
         (∀ j, In j (images st') -> image_id j ≠ image_id i)
         ∧ ∀ (env : Environ) (r' : Request),
             respond (ImageDetail.get r' (image_id i)) st' = (Response_status 404, st')
             ∧ respond (GetImage.get env r' (image_id i)) st' = (Response_status 404, st')).
Proof.
  intros Hnd Hin.
  pose proof (ImageDetail_get_object_found st r i Hnd Hin) as Hobj.
  pose proof (is_owner_image_spec r i) as Hown.
  unfold response_of, store_after, respond, ImageDetail.delete, mbind, M_bind.
  rewrite Hobj. destruct (is_owner r (ObjImage i)); simpl.
  - split; [intros Hno; exfalso; by apply Hno, Hown|].
    intros _. split; [done|]. intros st' ->.
    pose proof (Image_delete_gone st i) as Hgone.
    split; [exact Hgone|]. intros env r'.
    unfold respond, ImageDetail.get, GetImage.get, mbind, M_bind.
    rewrite ImageDetail_get_object_absent by exact Hgone.
    rewrite GetImage_get_object_absent by exact Hgone. done.
  - split; [done|]. intros Ho. by apply Hown in Ho.
Qed.

Lemma ImageDetail_delete_owner_only_witness :
  (¬ owns Demo.alice Demo.img1 ->
     respond (ImageDetail.delete (Demo.delete_by Demo.alice) 1) Demo.store2
       = (Response_status 403, Demo.store2))
  ∧ (owns Demo.alice Demo.img1 ->
     response_of (ImageDetail.delete (Demo.delete_by Demo.alice) 1) Demo.store2
       = Response_status 204
     ∧ ∀ st', st' = store_after (ImageDetail.delete (Demo.delete_by Demo.alice) 1) Demo.store2 ->
         (∀ j, In j (images st') -> image_id j ≠ 1)
         ∧ ∀ (env : Environ) (r' : Request),
             respond (ImageDetail.get r' 1) st' = (Response_status 404, st')
             ∧ respond (GetImage.get env r' 1) st' = (Response_status 404, st')).
Proof.
  apply (ImageDetail_delete_owner_only Demo.store2 (Demo.delete_by Demo.alice) Demo.img1).
  - apply (bool_decide_unpack _). vm_compute. exact I.
  - simpl. auto.
Defined.

Example delete_by_stranger_then_owner :
  status (response_of (ImageDetail.delete (Demo.delete_by Demo.bob) 1) Demo.store2) = 403
  ∧ status (response_of (ImageDetail.delete (Demo.delete_by Demo.alice) 1) Demo.store2) = 204
  ∧ images (store_after (ImageDetail.delete (Demo.delete_by Demo.alice) 1) Demo.store2)
    = [Demo.img2].
Proof. vm_compute. auto. Qed.

(** ** The loops of [ShareImages] *)

Lemma set_view_obj_id (st : Store) : set_view_obj (view_obj st) st = st.
Proof. by destruct st. Qed.

Lemma for_each_app {A} (body : A -> M unit) (l1 l2 : list A) (st : Store) :
  for_each body (l1 ++ l2) st =
    match for_each body l1 st with
    | (Ok _, st') => for_each body l2 st'
    | (Raise e, st') => (Raise e, st')
    end.
Proof.
  revert st. induction l1 as [|x l1 IH]; intros st; simpl; [done|].
  unfold mbind, M_bind. destruct (body x st) as [[[]|e] st']; [apply IH | done].
Qed.

(** A loop stops at the first iteration that raises, with the store that
    the iterations before it have left. *)
Lemma for_each_stops {A} (body : A -> M unit) (pre rest : list A) (bad : A)
    (st st_pre st_bad : Store) (e : Exn) :
  for_each body pre st = (Ok tt, st_pre) ->
  body bad st_pre = (Raise e, st_bad) ->
  for_each body (pre ++ bad :: rest) st = (Raise e, st_bad).
Proof.
  intros Hpre Hbad. rewrite for_each_app, Hpre. simpl.
  unfold mbind, M_bind. by rewrite Hbad.
Qed.

Lemma for_each_assign (gs : list Group) (i : Image) (st : Store) :
  for_each (fun g => assign_perm g i) gs st
  = (Ok tt, set_view_obj (grant_all gs i (view_obj st)) st).
Proof.
  revert st. induction gs as [|g gs IH]; intros st; simpl.
  - by rewrite set_view_obj_id.
  - unfold mbind, M_bind, assign_perm, modify. by rewrite IH.
Qed.

Lemma for_each_remove (gs : list Group) (i : Image) (st : Store) :
  for_each (fun g => remove_perm g i) gs st
  = (Ok tt, set_view_obj (revoke_all gs i (view_obj st)) st).
Proof.
  revert st. induction gs as [|g gs IH]; intros st; simpl.
  - by rewrite set_view_obj_id.
  - unfold mbind, M_bind, remove_perm, modify. by rewrite IH.
Qed.

Lemma elem_of_grant_all (gs : list Group) (i : Image) (P : gset (nat * nat)) x :
  x ∈ grant_all gs i P ↔ x ∈ P ∨ ∃ g, In g gs ∧ x = (group_id g, image_id i).
Proof.
  unfold grant_all. revert P. induction gs as [|g gs IH]; intros P; simpl.
  - split; [auto | intros [H|(g & [] & _)]; done].
  - rewrite IH, elem_of_union, elem_of_singleton. split.
    + intros [[->|H]|(g' & Hg' & ->)]; eauto.
    + intros [H|(g' & [<-|Hg'] & ->)]; eauto.
Qed.

Lemma elem_of_revoke_all (gs : list Group) (i : Image) (P : gset (nat * nat)) x :
  x ∈ revoke_all gs i P ↔ x ∈ P ∧ ¬ ∃ g, In g gs ∧ x = (group_id g, image_id i).
Proof.
  unfold revoke_all. revert P. induction gs as [|g gs IH]; intros P; simpl.
  - split; [intros H; split; [done | intros (g & [] & _)] | by intros [H _]].
  - rewrite IH, elem_of_difference, elem_of_singleton. split.
    + intros [[H Hne] Hno]. split; [done|].
      intros (g' & [<-|Hg'] & ->); [done | eauto].
    + intros [H Hno]. split; [split; [done|] |]; [intros -> | intros (g' & Hg' & ->)];
        apply Hno; eauto.
Qed.

Lemma elem_of_grant_batch (gs : list Group) (imgs : list Image) (P : gset (nat * nat)) x :
  x ∈ grant_batch gs imgs P ↔ x ∈ P ∨ batch_pair gs imgs x.
Proof.
  unfold grant_batch, batch_pair. revert P.
  induction imgs as [|i imgs IH]; intros P; simpl.
  - split; [auto | intros [H|(g & i & _ & [] & _)]; done].
  - rewrite IH, elem_of_grant_all. split.
    + intros [[H|(g & Hg & ->)]|(g & j & Hg & Hj & ->)]; eauto 8.
    + intros [H|(g & j & Hg & [<-|Hj] & ->)]; eauto 8.
Qed.

Lemma elem_of_revoke_batch (gs : list Group) (imgs : list Image) (P : gset (nat * nat)) x :
  x ∈ revoke_batch gs imgs P ↔ x ∈ P ∧ ¬ batch_pair gs imgs x.
Proof.
  unfold revoke_batch, batch_pair. revert P.
  induction imgs as [|i imgs IH]; intros P; simpl.
  - split; [intros H; split; [done | intros (g & i & _ & [] & _)] | by intros [H _]].
  - rewrite IH, elem_of_revoke_all. split.
    + intros [[H Hno1] Hno2]. split; [done|].
      intros (g & j & Hg & [<-|Hj] & ->); [apply Hno1 | apply Hno2]; eauto 8.
    + intros [H Hno]. split; [split; [done|] |];
        [intros (g & Hg & ->) | intros (g & j & Hg & Hj & ->)]; apply Hno; eauto 8.
Qed.

(** ** One iteration of [ShareImages.post] and [ShareImages.delete] *)

Lemma owner_check (r : Request) (i : Image) (st : Store) :
  check_object_permissions ShareImages.permission_classes r (ObjImage i) st
  = if is_owner r (ObjImage i) then (Ok tt, st) else (Raise PermissionDenied, st).
Proof.
  unfold check_object_permissions. simpl. rewrite andb_true_r. done.
Qed.

Lemma post_image_not_owner (r : Request) (i : Image) (st : Store) :
  ¬ owns (req_user r) i ->
  ShareImages.post_image r i st = (Raise PermissionDenied, st).
Proof.
  intros Hno. unfold ShareImages.post_image, mbind, M_bind. rewrite owner_check.
  destruct (is_owner r (ObjImage i)) eqn:Ho; [|done].
  exfalso. by apply Hno, is_owner_image_spec.
Qed.

(** With the [public] key absent, the iteration over an image the requester
    owns raises [KeyError] before any grant is written. *)
Lemma post_image_no_public (r : Request) (i : Image) (st : Store) :
  owns (req_user r) i -> d_public (req_data r) = None ->
  ShareImages.post_image r i st = (Raise (KeyError "public"), st).
Proof.
  intros Ho Hpub. apply is_owner_image_spec in Ho.
  unfold ShareImages.post_image, mbind, M_bind. rewrite owner_check, Ho.
  unfold ShareImages.data_public. by rewrite Hpub.
Qed.

Lemma post_image_groups (r : Request) (i : Image) (st : Store) (v : string)
    (gids : list nat) :
  owns (req_user r) i -> d_public (req_data r) = Some (VStr v) ->
  ShareImages.is_true v = false -> d_group_ids (req_data r) = Some gids ->
  ShareImages.post_image r i st
  = (Ok tt, set_view_obj (grant_all (listed_groups st r) i (view_obj st)) st).
Proof.
  intros Ho Hpub Hv Hg. apply is_owner_image_spec in Ho.
  unfold ShareImages.post_image, mbind, M_bind. rewrite owner_check, Ho.
  unfold ShareImages.data_public. rewrite Hpub. simpl. rewrite Hv, Hg. simpl.
  unfold objects_filter_id_in. simpl_model.
  rewrite for_each_assign. unfold listed_groups. by rewrite Hg.
Qed.

Lemma post_loop_groups (r : Request) (imgs : list Image) (st : Store) (v : string)
    (gids : list nat) :
  (∀ i, In i imgs -> owns (req_user r) i) -> d_public (req_data r) = Some (VStr v) ->
  ShareImages.is_true v = false -> d_group_ids (req_data r) = Some gids ->
  for_each (ShareImages.post_image r) imgs st
  = (Ok tt, set_view_obj (grant_batch (listed_groups st r) imgs (view_obj st)) st).
Proof.
  intros Ho Hpub Hv Hg. revert st.
  induction imgs as [|i imgs IH]; intros st; simpl.
  - by rewrite set_view_obj_id.
  - unfold mbind, M_bind.
    rewrite (post_image_groups r i st v gids) by auto using in_eq.
    rewrite IH by auto using in_cons. done.
Qed.

Lemma delete_image_not_owner (r : Request) (i : Image) (st : Store) :
  ¬ owns (req_user r) i ->
  ShareImages.delete_image r i st = (Raise PermissionDenied, st).
Proof.
  intros Hno. unfold ShareImages.delete_image, mbind, M_bind. rewrite owner_check.
  destruct (is_owner r (ObjImage i)) eqn:Ho; [|done].
  exfalso. by apply Hno, is_owner_image_spec.
Qed.

Lemma delete_image_groups (r : Request) (i : Image) (st : Store) :
  owns (req_user r) i ->
  ShareImages.delete_image r i st
  = (Ok tt, set_view_obj (revoke_all (listed_groups st r) i (view_obj st)) st).
Proof.
  intros Ho. apply is_owner_image_spec in Ho.
  unfold ShareImages.delete_image, mbind, M_bind. rewrite owner_check, Ho.
  unfold objects_filter_id_in. simpl_model. by rewrite for_each_remove.
Qed.

Lemma delete_loop_groups (r : Request) (imgs : list Image) (st : Store) :
  (∀ i, In i imgs -> owns (req_user r) i) ->
  for_each (ShareImages.delete_image r) imgs st
  = (Ok tt, set_view_obj (revoke_batch (listed_groups st r) imgs (view_obj st)) st).
Proof.
  intros Ho. revert st.
  induction imgs as [|i imgs IH]; intros st; simpl.
  - by rewrite set_view_obj_id.
  - unfold mbind, M_bind.
    rewrite (delete_image_groups r i st) by auto using in_eq.
    rewrite IH by auto using in_cons. done.
Qed.

(** The test of the first [if] of [post] raises when it comes to a
    [public] value that is no string, and otherwise answers whether the
    request is refused. *)
Lemma post_test_run (d : Data) (st : Store) :
  ShareImages.post_test d st =
    match d_image_ids d, d_group_ids d, d_public d with
    | Some _, None, Some VOther => (Raise (AttributeError "lower"), st)
    | _, _, _ => (Ok (ShareImages.post_invalid d), st)
    end.
Proof.
  unfold ShareImages.post_test, ShareImages.post_invalid, ShareImages.lower_is_true.
  destruct (d_image_ids d), (d_group_ids d), (d_public d) as [[v|]|]; done.
Qed.

Lemma post_test_valid (d : Data) (st : Store) :
  ShareImages.post_invalid d = false -> ShareImages.post_test d st = (Ok false, st).
Proof.
  intros Hv. rewrite post_test_run, Hv.
  unfold ShareImages.post_invalid in Hv.
  by destruct (d_image_ids d), (d_group_ids d), (d_public d) as [[v|]|].
Qed.

(** [post] and [delete] past their validation: the loop over the referenced
    images, then 200. *)
Lemma post_valid (r : Request) (st : Store) :
  ShareImages.post_invalid (req_data r) = false ->
  ShareImages.post r st =
    match for_each (ShareImages.post_image r) (referenced_images st r) st with
    | (Ok _, st') => (Ok (Response_status 200), st')
    | (Raise e, st') => (Raise e, st')
    end.
Proof.
  intros Hv. unfold ShareImages.post.
  unfold mbind at 1, M_bind at 1. rewrite (post_test_valid _ st Hv).
  unfold mbind, M_bind, objects_filter_id_in, mret, M_ret. simpl_model.
  fold (referenced_images st r).
  by destruct (for_each _ _ st) as [[[]|e] st'].
Qed.

Lemma delete_valid (r : Request) (st : Store) :
  ShareImages.delete_invalid (req_data r) = false ->
  ShareImages.delete r st =
    match for_each (ShareImages.delete_image r) (referenced_images st r) st with
    | (Ok _, st') => (Ok (Response_status 200), st')
    | (Raise e, st') => (Raise e, st')
    end.
Proof.
  intros Hv. unfold ShareImages.delete. rewrite Hv.
  unfold mbind, M_bind, objects_filter_id_in, mret, M_ret. simpl_model.
  fold (referenced_images st r).
  by destruct (for_each _ _ st) as [[[]|e] st'].
Qed.

(** A valid request without the [public] key is answered 500 as soon as the
    first referenced image belongs to the requester, and nothing is
    granted. *)
Lemma ShareImages_post_KeyError (r : Request) (st : Store) (i : Image) (rest : list Image) :
  ShareImages.post_invalid (req_data r) = false ->
  d_public (req_data r) = None ->
  referenced_images st r = i :: rest ->
  owns (req_user r) i ->
  respond (ShareImages.post r) st = (Response_status 500, st).
Proof.
  intros Hv Hpub Href Ho. unfold respond. rewrite post_valid, Href by done.
  simpl. unfold mbind, M_bind. by rewrite post_image_no_public.
Qed.

(** On a valid request that carries a [public] key other than true, the
    iteration stops with 403 at the first referenced image the requester
    does not own; the grants written for the images before it stay. *)
Lemma ShareImages_post_stops_at_first_unowned (r : Request) (st : Store)
    (pre rest : list Image) (bad : Image) (v : string) (gids : list nat) :
  ShareImages.post_invalid (req_data r) = false ->
  d_public (req_data r) = Some (VStr v) -> ShareImages.is_true v = false ->
  d_group_ids (req_data r) = Some gids ->
  referenced_images st r = pre ++ bad :: rest ->
  (∀ i, In i pre -> owns (req_user r) i) ->
  ¬ owns (req_user r) bad ->
  respond (ShareImages.post r) st
  = (Response_status 403,
     set_view_obj (grant_batch (listed_groups st r) pre (view_obj st)) st).
Proof.
  intros Hv Hpub Hf Hg Href Hpre Hbad. unfold respond.
  rewrite post_valid, Href by done.
  set (st_pre := set_view_obj (grant_batch (listed_groups st r) pre (view_obj st)) st).
  rewrite (for_each_stops _ pre rest bad st st_pre st_pre PermissionDenied).
  - done.
  - by apply (post_loop_groups r pre st v gids).
  - by apply post_image_not_owner.
Qed.

(** C2. The request [{image_ids: [1], group_ids: [2]}] by the owner of image
    1 passes the validation of [ShareImages.post] and references only an
    image the requester owns, yet it is answered 500 and the listed group
    receives no grant: the loop reads [request.data['public']], which the
    validation allows to be absent. *)
Theorem ShareImages_post_group_ids_without_public :
  ShareImages.post_invalid (req_data (grant_request Demo.alice [1] [2] None)) = false
  ∧ referenced_images Demo.store0 (grant_request Demo.alice [1] [2] None) = [Demo.img1]
  ∧ owns Demo.alice Demo.img1
  ∧ respond (ShareImages.post (grant_request Demo.alice [1] [2] None)) Demo.store0
    = (Response_status 500, Demo.store0)
  ∧ (2, 1) ∉ view_obj (store_after (ShareImages.post (grant_request Demo.alice [1] [2] None))
                                   Demo.store0).
Proof.
  assert (Hrun : respond (ShareImages.post (grant_request Demo.alice [1] [2] None)) Demo.store0
                 = (Response_status 500, Demo.store0))
    by (by apply (ShareImages_post_KeyError _ _ Demo.img1 [])).
  split_and!; [done..|].
  unfold store_after. rewrite Hrun. simpl. apply not_elem_of_empty.
Qed.

(** The same request with the [public] key supplied is answered 200 and
    grants the listed group its view permission. *)
Example ShareImages_post_with_public_false :
  status (response_of (ShareImages.post (grant_request Demo.alice [1] [2] (Some "False")))
                      Demo.store0) = 200
  ∧ (2, 1) ∈ view_obj (store_after (ShareImages.post
                         (grant_request Demo.alice [1] [2] (Some "False"))) Demo.store0).
Proof. split; [done|]. apply (bool_decide_unpack _). vm_compute. exact I. Qed.

(** C6. The request [{image_ids: [1, 2], group_ids: [2]}] by the owner of
    image 1, who does not own image 2, is valid and iterates over image 1
    and then image 2.  It is answered 500 in the iteration over image 1,
    which the requester owns: the ownership of image 2 is never checked, and
    image 1 has received no grant. *)
Theorem ShareImages_post_fails_before_unowned_image :
  ShareImages.post_invalid (req_data (grant_request Demo.alice [1; 2] [2] None)) = false
  ∧ referenced_images Demo.store0 (grant_request Demo.alice [1; 2] [2] None)
    = [Demo.img1; Demo.img2]
  ∧ owns Demo.alice Demo.img1
  ∧ ¬ owns Demo.alice Demo.img2
  ∧ ShareImages.post_image (grant_request Demo.alice [1; 2] [2] None) Demo.img1 Demo.store0
    = (Raise (KeyError "public"), Demo.store0)
  ∧ respond (ShareImages.post (grant_request Demo.alice [1; 2] [2] None)) Demo.store0
    = (Response_status 500, Demo.store0).
Proof.
  split_and!; [done..|].
  by apply (ShareImages_post_KeyError _ _ Demo.img1 [Demo.img2]).
Qed.

(** With the [public] key supplied, the same batch stops with 403 at image
    2, and the grant written for image 1 stays. *)
Example ShareImages_post_partial_grant :
  respond (ShareImages.post (grant_request Demo.alice [1; 2] [2] (Some "false"))) Demo.store0
  = (Response_status 403,
     set_view_obj (grant_batch [Demo.team] [Demo.img1] ∅) Demo.store0)
  ∧ (2, 1) ∈ grant_batch [Demo.team] [Demo.img1] ∅
  ∧ (2, 2) ∉ grant_batch [Demo.team] [Demo.img1] ∅.
Proof.
  split.
  - apply (ShareImages_post_stops_at_first_unowned
             (grant_request Demo.alice [1; 2] [2] (Some "false")) Demo.store0
             [Demo.img1] [] Demo.img2 "false" [2]); try done.
    intros i [<-|[]]. done.
  - rewrite !elem_of_grant_batch. unfold batch_pair. split.
    + right. exists Demo.team, Demo.img1. simpl. auto.
    + intros [H|(g & i & Hg & Hi & Heq)]; [set_solver|].
      simpl in Hg, Hi. destruct Hg as [<-|[]]. destruct Hi as [<-|[]]. done.
Qed.

(** ** Grant, then revoke *)

(** What a grant of view permission to the listed groups alone, followed by
    a revoke for the same images and groups, leaves in the grant set: the
    grants held before, less every pair of the batch. *)
Lemma ShareImages_post_then_delete (st : Store) (u : User) (iids gids : list nat)
    (v : string) :
  ShareImages.is_true v = false ->
  (∀ i, In i (referenced_images st (grant_request u iids gids (Some v))) -> owns u i) ->
  response_of (ShareImages.post (grant_request u iids gids (Some v))) st = Response_status 200
  ∧ respond (ShareImages.delete (revoke_request u iids gids))
            (store_after (ShareImages.post (grant_request u iids gids (Some v))) st)
    = (Response_status 200,
       set_view_obj
         (revoke_batch (listed_groups st (revoke_request u iids gids))
            (referenced_images st (revoke_request u iids gids))
            (grant_batch (listed_groups st (grant_request u iids gids (Some v)))
               (referenced_images st (grant_request u iids gids (Some v)))
               (view_obj st)))
         st).
Proof.
  intros Hv Ho.
  unfold response_of, store_after, respond.
  rewrite post_valid by done.
  rewrite (post_loop_groups _ _ st v gids) by done. simpl.
  split; [done|].
  rewrite delete_valid by done.
  rewrite delete_loop_groups by exact Ho. done.
Qed.

(** C7, as stated, fails: when the group already holds view permission on
    the image, the grant changes nothing and the revoke removes the
    permission that was there before. *)
Lemma grant_then_revoke_not_inverse :
  (2, 1) ∈ view_obj Demo.store1
  ∧ status (response_of (ShareImages.post (grant_request Demo.alice [1] [2] (Some "false")))
                        Demo.store1) = 200
  ∧ status (response_of (ShareImages.delete (revoke_request Demo.alice [1] [2]))
              (store_after (ShareImages.post (grant_request Demo.alice [1] [2] (Some "false")))
                           Demo.store1)) = 200
  ∧ view_obj (store_after (ShareImages.delete (revoke_request Demo.alice [1] [2]))
                (store_after (ShareImages.post (grant_request Demo.alice [1] [2] (Some "false")))
                             Demo.store1))
    ≠ view_obj Demo.store1.
Proof.
  split_and!; [by apply (bool_decide_unpack _) | done | done |].
  intros Heq.
  assert (Hin : (2, 1) ∈ view_obj Demo.store1) by (by apply (bool_decide_unpack _)).
  rewrite <- Heq in Hin. revert Hin.
  apply (bool_decide_unpack _). vm_compute. exact I.
Qed.

(** C7, amended.  When none of the listed groups holds view permission on
    any of the referenced images, a grant to those groups alone (the public
    flag supplied and not true) by the owner of the images is answered 200,
    and the revoke for the same images and groups is answered 200 and
    returns the store, and with it the access state of every image, to what
    it was before the grant. *)
Theorem ShareImages_grant_then_revoke (st : Store) (u : User) (iids gids : list nat)
    (v : string) :
  ShareImages.is_true v = false ->
  (∀ i, In i (referenced_images st (grant_request u iids gids (Some v))) -> owns u i) ->
  (∀ g i, In g (listed_groups st (grant_request u iids gids (Some v))) ->
          In i (referenced_images st (grant_request u iids gids (Some v))) ->
          (group_id g, image_id i) ∉ view_obj st) ->
  response_of (ShareImages.post (grant_request u iids gids (Some v))) st = Response_status 200
  ∧ respond (ShareImages.delete (revoke_request u iids gids))
            (store_after (ShareImages.post (grant_request u iids gids (Some v))) st)
    = (Response_status 200, st).
Proof.
  intros Hv Ho Hfresh.
  destruct (ShareImages_post_then_delete st u iids gids v Hv Ho) as [Hpost Hdel].
  split; [exact Hpost|]. rewrite Hdel. f_equal.
  transitivity (set_view_obj (view_obj st) st); [|apply set_view_obj_id].
  f_equal. apply set_eq. intros x.
  rewrite elem_of_revoke_batch, elem_of_grant_batch. split.
  - intros [[H|H] Hno]; [done | by destruct Hno].
  - intros H. split; [by left|].
    intros (g & i & Hg & Hi & ->). by apply (Hfresh g i).
Qed.

Lemma ShareImages_grant_then_revoke_witness :
  response_of (ShareImages.post (grant_request Demo.alice [1] [2] (Some "false"))) Demo.store0
    = Response_status 200
  ∧ respond (ShareImages.delete (revoke_request Demo.alice [1] [2]))
            (store_after (ShareImages.post (grant_request Demo.alice [1] [2] (Some "false")))
                         Demo.store0)
    = (Response_status 200, Demo.store0).
Proof.
  apply (ShareImages_grant_then_revoke Demo.store0 Demo.alice [1] [2] "false").
  - reflexivity.
  - simpl. intros i [<-|[]]. reflexivity.
  - simpl. intros g i [<-|[]] [<-|[]]. simpl. apply not_elem_of_empty.
Defined.

(** ** Project detail *)

(** C4. Every project-detail retrieval raises [TypeError] in [get_object],
    whether or not a project with the requested key exists and whoever asks:
    the request is answered 500, never 200, 403 or 404, and the store is
    left as it was. *)
Theorem ProjectDetail_get_always_raises (st : Store) (r : Request) (k : nat) :
  ProjectDetail.get r k st = (Raise TypeError, st)
  ∧ respond (ProjectDetail.get r k) st = (Response_status 500, st).
Proof. split; reflexivity. Qed.

(** The owner of the stored project 1 asks for it. *)
Example ProjectDetail_get_existing_project :
  In Demo.prj1 (projects Demo.store0)
  ∧ project_owner_email Demo.prj1 = user_email Demo.alice
  ∧ status (response_of (ProjectDetail.get (Demo.get_by Demo.alice) 1) Demo.store0) = 500.
Proof. simpl. auto. Qed.

(** ** Group membership *)

Lemma in_group_named_spec (st : Store) (u : User) (name : string) :
  in_group_named st u name = true
  ↔ ∃ g, In g (groups st) ∧ group_name g = name
         ∧ (user_id u, group_id g) ∈ user_groups st.
Proof.
  unfold in_group_named. rewrite existsb_exists. split.
  - intros (g & Hg & Hb). apply andb_true_iff in Hb as [Hn Hm].
    apply String.eqb_eq in Hn. apply bool_decide_eq_true in Hm. eauto.
  - intros (g & Hg & Hn & Hm). exists g. split; [done|].
    apply andb_true_iff. split; [by apply String.eqb_eq | by apply bool_decide_eq_true].
Qed.

Lemma get_user_or_404_absent (st : Store) (email : string) :
  (∀ u, In u (users st) -> user_email u ≠ email) ->
  JoinGroup.get_user_or_404 email st = (Raise Http404, st).
Proof.
  intros Habs. unfold JoinGroup.get_user_or_404. unfold_monad. simpl_model.
  rewrite filter_none; [done|].
  intros u Hu. apply String.eqb_neq. by apply Habs.
Qed.

Lemma get_user_or_404_found (st : Store) (u : User) :
  unique_emails st -> In u (users st) ->
  JoinGroup.get_user_or_404 (user_email u) st = (Ok u, st).
Proof.
  intros Hnd Hin. unfold JoinGroup.get_user_or_404. unfold_monad. simpl_model.
  rewrite (filter_unique user_email _ (user_email u) (users st) u); auto.
  intros y. apply String.eqb_eq.
Qed.

Lemma get_group_or_404_found (st : Store) (g : Group) :
  unique_group_names st -> In g (groups st) ->
  JoinGroup.get_group_or_404 (group_name g) st = (Ok g, st).
Proof.
  intros Hnd Hin. unfold JoinGroup.get_group_or_404. unfold_monad. simpl_model.
  rewrite (filter_unique group_name _ (group_name g) (groups st) g); auto.
  intros y. apply String.eqb_eq.
Qed.

(** Called on a name that no group carries, [get_group_or_404] lets
    [Group.DoesNotExist] through: its [except] clause names
    [User.DoesNotExist]. *)
Lemma get_group_or_404_absent (st : Store) (name : string) :
  (∀ g, In g (groups st) -> group_name g ≠ name) ->
  JoinGroup.get_group_or_404 name st = (Raise (DoesNotExist MGroup), st).
Proof.
  intros Habs. unfold JoinGroup.get_group_or_404. unfold_monad. simpl_model.
  rewrite filter_none; [done|].
  intros g Hg. apply String.eqb_neq. by apply Habs.
Qed.

(** Without membership in a group of that name, which is the case whenever
    no group carries the name, [post] answers 403 before any lookup. *)
Lemma JoinGroup_post_not_member (st : Store) (r : Request) (name : string) :
  in_group_named st (req_user r) name = false ->
  respond (JoinGroup.post r name) st = (Response_status 403, st).
Proof.
  intros Hm. unfold JoinGroup.post. unfold_monad. by rewrite Hm.
Qed.

Lemma JoinGroup_post_no_such_group (st : Store) (r : Request) (name : string) :
  (∀ g, In g (groups st) -> group_name g ≠ name) ->
  in_group_named st (req_user r) name = false.
Proof.
  intros Habs. destruct (in_group_named st (req_user r) name) eqn:Hm; [|done].
  apply in_group_named_spec in Hm as (g & Hg & Hn & _). by apply Habs in Hg.
Qed.

Example JoinGroup_post_examples :
  status (response_of (JoinGroup.post (Demo.join Demo.bob "carol@example.org") "team")
                      Demo.store0) = 200
  ∧ status (response_of (JoinGroup.post (Demo.join Demo.bob "dave@example.org") "team")
                        Demo.store0) = 404
  ∧ status (response_of (JoinGroup.post (Demo.join Demo.alice "carol@example.org") "team")
                        Demo.store0) = 403
  ∧ status (response_of (JoinGroup.post (Demo.join Demo.bob "carol@example.org") "nowhere")
                        Demo.store0) = 403.
Proof. vm_compute. auto. Qed.

Lemma JoinGroup_member_passes_check (st : Store) (r : Request) (name : string) :
  in_group_named st (req_user r) name = true ->
  status (response_of (JoinGroup.post r name) st) ≠ 403.
Proof.
  intros Hm. unfold JoinGroup.post, JoinGroup.get_user_or_404, JoinGroup.get_group_or_404.
  unfold_monad. rewrite Hm. simpl.
  destruct (d_email (req_data r)) as [email|]; [|done].
  destruct (List.filter _ (users st)) as [|u [|u' lu]]; [done| |done].
  destruct (List.filter _ (groups st)) as [|g [|g' lg]]; done.
Qed.

(** ** Group creation *)

Lemma next_pk_fresh (ids : list nat) (x : nat) : In x ids -> x ≠ next_pk ids.
Proof.
  intros Hin. unfold next_pk.
  assert (Hle : Forall (fun k => k <= list_max ids) ids) by (by apply list_max_le).
  rewrite Forall_forall in Hle. apply list_elem_of_In, Hle in Hin. lia.
Qed.

(** The group that [serializer.save()] inserts, and the store once
    [CreateGroup.post] has added the requester to it. *)
Lemma CreateGroup_post_valid (valid : Store -> Data -> option string)
    (st : Store) (r : Request) (name : string) :
  valid st (req_data r) = Some name ->
  respond (CreateGroup.post valid r) st
  = (Response_data 201 (BGroup (mkGroup (next_pk (List.map group_id (groups st))) name)),
     set_user_groups
       ({[ (user_id (req_user r), next_pk (List.map group_id (groups st))) ]} ∪ user_groups st)
       (set_groups (groups st ++ [mkGroup (next_pk (List.map group_id (groups st))) name]) st)).
Proof.
  intros Hv. unfold CreateGroup.post. unfold_monad. rewrite Hv. simpl_model. simpl.
  rewrite List.filter_app. simpl. rewrite Nat.eqb_refl.
  rewrite filter_none; [done|].
  intros g Hg. apply Nat.eqb_neq. apply next_pk_fresh. by apply in_map.
Qed.

Lemma CreateGroup_post_invalid (valid : Store -> Data -> option string)
    (st : Store) (r : Request) :
  valid st (req_data r) = None ->
  respond (CreateGroup.post valid r) st = (Response_data 400 BErrors, st).
Proof.
  intros Hv. unfold CreateGroup.post. unfold_monad. by rewrite Hv.
Qed.

(** C9. Whenever [CreateGroup.post] answers 201, the store it leaves holds
    the new group of the response body under a key that no group carried
    before, the requester is a member of that group, and a [JoinGroup]
    request of the requester for that group's name passes the membership
    check: it is not answered 403. *)
Theorem CreateGroup_post_creator_is_member (valid : Store -> Data -> option string)
    (st : Store) (r : Request) :
  status (response_of (CreateGroup.post valid r) st) = 201 ->
  ∃ g, body (response_of (CreateGroup.post valid r) st) = BGroup g
       ∧ (∀ g', In g' (groups st) -> group_id g' ≠ group_id g)
       ∧ In g (groups (store_after (CreateGroup.post valid r) st))
       ∧ (user_id (req_user r), group_id g)
           ∈ user_groups (store_after (CreateGroup.post valid r) st)
       ∧ in_group_named (store_after (CreateGroup.post valid r) st) (req_user r)
                        (group_name g) = true
       ∧ ∀ r', req_user r' = req_user r ->
           status (response_of (JoinGroup.post r' (group_name g))
                               (store_after (CreateGroup.post valid r) st)) ≠ 403.
Proof.
  unfold response_of, store_after.
  destruct (valid st (req_data r)) as [name|] eqn:Hv.
  - rewrite (CreateGroup_post_valid valid st r name Hv). simpl. intros _.
    set (g := mkGroup (next_pk (List.map group_id (groups st))) name).
    set (st' := set_user_groups _ _).
    assert (Hmem : (user_id (req_user r), group_id g) ∈ user_groups st')
      by (simpl; apply elem_of_union_l, elem_of_singleton; done).
    assert (Hin : In g (groups st')) by (simpl; apply in_or_app; simpl; auto).
    assert (Hnamed : in_group_named st' (req_user r) (group_name g) = true)
      by (apply in_group_named_spec; eauto).
    exists g. split_and!; try done.
    + intros g' Hg'. apply next_pk_fresh. by apply in_map.
    + intros r' Hr'. apply JoinGroup_member_passes_check. by rewrite Hr'.
  - rewrite (CreateGroup_post_invalid valid st r Hv). simpl. discriminate.
Qed.

Lemma CreateGroup_post_creator_is_member_witness :
  ∃ g, body (response_of (CreateGroup.post Demo.name_required
                            (Demo.create_group Demo.carol "readers")) Demo.store0) = BGroup g
       ∧ (∀ g', In g' (groups Demo.store0) -> group_id g' ≠ group_id g)
       ∧ In g (groups (store_after (CreateGroup.post Demo.name_required
                                      (Demo.create_group Demo.carol "readers")) Demo.store0))
       ∧ (user_id Demo.carol, group_id g)
           ∈ user_groups (store_after (CreateGroup.post Demo.name_required
                                         (Demo.create_group Demo.carol "readers")) Demo.store0)
       ∧ in_group_named (store_after (CreateGroup.post Demo.name_required
                                        (Demo.create_group Demo.carol "readers")) Demo.store0)
                        Demo.carol (group_name g) = true
       ∧ ∀ r', req_user r' = Demo.carol ->
           status (response_of (JoinGroup.post r' (group_name g))
                     (store_after (CreateGroup.post Demo.name_required
                                     (Demo.create_group Demo.carol "readers")) Demo.store0))
           ≠ 403.
Proof.
  apply (CreateGroup_post_creator_is_member Demo.name_required Demo.store0
           (Demo.create_group Demo.carol "readers")).
  reflexivity.
Defined.

Example CreateGroup_then_JoinGroup :
  response_of (CreateGroup.post Demo.name_required (Demo.create_group Demo.carol "readers"))
              Demo.store0
  = Response_data 201 (BGroup (mkGroup 3 "readers"))
  ∧ status (response_of (JoinGroup.post (Demo.join Demo.carol "alice@example.org") "readers")
              (store_after (CreateGroup.post Demo.name_required
                              (Demo.create_group Demo.carol "readers")) Demo.store0)) = 200
  ∧ status (response_of (JoinGroup.post (Demo.join Demo.carol "alice@example.org") "readers")
                        Demo.store0) = 403.
Proof. vm_compute. auto. Qed.

(** ** Listing and retrieval *)

Lemma GetImage_get_object_ok (st st' : Store) (r : Request) (k : nat) (i : Image) :
  GetImage.get_object r k st = (Ok i, st') ->
  st' = st ∧ In i (images st) ∧ image_id i = k
  ∧ forallb (fun p => has_object_permission p st r (ObjImage i))
            GetImage.permission_classes = true.
Proof.
  unfold GetImage.get_object. unfold_monad. simpl_model.
  destruct (List.filter _ (images st)) as [|x [|y l]] eqn:Hf; try done.
  destruct (forallb _ GetImage.permission_classes) eqn:Hp; [|done].
  intros [= <- <-].
  assert (Hx : In x (List.filter (fun i0 : Image => image_id i0 =? k) (images st)))
    by (rewrite Hf; simpl; auto).
  apply filter_In in Hx as [Hin Hk]. apply Nat.eqb_eq in Hk. done.
Qed.

Lemma AnnotationsJsonDetail_get_found (cfg : Settings) (st : Store) (r : Request)
    (a : AnnotationsJson) :
  unique_pk (A:=AnnotationsJson) st -> In a (annotations st) ->
  respond (AnnotationsJsonDetail.get cfg r (annotations_id a)) st
  = if forallb (fun p => has_object_permission p st r (ObjAnnotations a))
               (DEFAULT_PERMISSION_CLASSES cfg)
    then (Response_data 200 (BAnnotations a), st)
    else (Response_status 403, st).
Proof.
  intros Hnd Hin. unfold AnnotationsJsonDetail.get. unfold_monad.
  pose proof (filter_pk st a Hnd Hin) as Hf. simpl_model. rewrite Hf.
  by destruct (forallb _ (DEFAULT_PERMISSION_CLASSES cfg)).
Qed.

Lemma AnnotationsJsonDetail_get_absent (cfg : Settings) (st : Store) (r : Request) (k : nat) :
  (∀ a, In a (annotations st) -> annotations_id a ≠ k) ->
  respond (AnnotationsJsonDetail.get cfg r k) st = (Response_status 404, st).
Proof.
  intros Habs. unfold AnnotationsJsonDetail.get. unfold_monad. simpl_model.
  rewrite filter_none; [done|].
  intros a Ha. apply Nat.eqb_neq. by apply Habs.
Qed.

(** C3, as stated, fails.  Carol owns nothing, belongs to no group and
    nothing is shared or public, so the media endpoint refuses her image 1;
    the listing hands her every image all the same, and under the
    framework's default permission classes the annotation of another user
    is returned to her as well. *)
Lemma ImageList_get_is_not_gated :
  ¬ can_view Demo.store0 Demo.carol Demo.img1
  ∧ status (response_of (GetImage.get Demo.env0 (Demo.get_by Demo.carol) 1) Demo.store0) = 403
  ∧ response_of (ImageList.get (Demo.get_by Demo.carol)) Demo.store0
    = Response_data 200 (BImages [Demo.img1; Demo.img2])
  ∧ annotations_owner_email Demo.ann1 ≠ user_email Demo.carol
  ∧ response_of (AnnotationsJsonDetail.get Demo.drf_defaults (Demo.get_by Demo.carol) 1)
                Demo.store0
    = Response_data 200 (BAnnotations Demo.ann1).
Proof.
  split_and!; [|done..].
  unfold can_view, owns, in_granted_group, public. simpl.
  intros [H|[[g [_ H]]|H]]; [done | |]; by apply not_elem_of_empty in H.
Qed.

(** C3, amended.  The retrieval handlers of an image check the permission
    classes their view declares: the media endpoint answers a GET with 200
    only if the requester may view the image, the detail endpoint only if
    the requester owns it.  The listing of images applies no predicate: it
    returns every stored image to every requester.  Retrieval of an
    AnnotationsJson by id declares no permission class: a stored annotation
    is returned unless the default permission classes of the settings
    refuse it, and a key that no annotation carries is answered 404. *)
Theorem list_and_retrieve_gating (cfg : Settings) (env : Environ) (st : Store)
    (r : Request) (a : AnnotationsJson) :
  unique_pk (A:=AnnotationsJson) st -> In a (annotations st) -> req_method r = GET ->
  (∀ k, status (response_of (GetImage.get env r k) st) = 200 ->
        ∃ i, In i (images st) ∧ image_id i = k ∧ can_view st (req_user r) i)
  ∧ (∀ k, status (response_of (ImageDetail.get r k) st) = 200 ->
          ∃ i, In i (images st) ∧ image_id i = k ∧ owns (req_user r) i)
  ∧ respond (ImageList.get r) st = (Response_data 200 (BImages (images st)), st)
  ∧ respond (AnnotationsJsonDetail.get cfg r (annotations_id a)) st
    = (if forallb (fun p => has_object_permission p st r (ObjAnnotations a))
                  (DEFAULT_PERMISSION_CLASSES cfg)
       then (Response_data 200 (BAnnotations a), st)
       else (Response_status 403, st))
  ∧ (∀ k, (∀ b, In b (annotations st) -> annotations_id b ≠ k) ->
          respond (AnnotationsJsonDetail.get cfg r k) st = (Response_status 404, st)).
Proof.
  intros Hnd Hin Hget.
  assert (Hsafe : is_safe (req_method r) = true) by (by rewrite Hget).
  split_and!.
  - intros k. unfold response_of, respond, GetImage.get, mbind, M_bind.
    destruct (GetImage.get_object r k st) as [[i|e] st'] eqn:Hobj.
    + intros _. apply GetImage_get_object_ok in Hobj as (_ & Hi & Hk & Hp).
      exists i. split_and!; [done..|]. by apply GetImage_predicate_spec.
    + by destruct e.
  - intros k. unfold response_of, respond, ImageDetail.get, mbind, M_bind.
    destruct (ImageDetail.get_object r k st) as [[i|e] st'] eqn:Hobj.
    + intros _. apply ImageDetail_get_object_ok in Hobj as (_ & Hi & Hk & Ho). eauto.
    + by destruct e.
  - done.
  - by apply AnnotationsJsonDetail_get_found.
  - intros k. apply AnnotationsJsonDetail_get_absent.
Qed.

Lemma list_and_retrieve_gating_witness :
  (∀ k, status (response_of (GetImage.get Demo.env0 (Demo.get_by Demo.carol) k) Demo.store0)
        = 200 ->
        ∃ i, In i (images Demo.store0) ∧ image_id i = k ∧ can_view Demo.store0 Demo.carol i)
  ∧ (∀ k, status (response_of (ImageDetail.get (Demo.get_by Demo.carol) k) Demo.store0) = 200 ->
          ∃ i, In i (images Demo.store0) ∧ image_id i = k ∧ owns Demo.carol i)
  ∧ respond (ImageList.get (Demo.get_by Demo.carol)) Demo.store0
    = (Response_data 200 (BImages (images Demo.store0)), Demo.store0)
  ∧ respond (AnnotationsJsonDetail.get Demo.drf_defaults (Demo.get_by Demo.carol) 1) Demo.store0
    = (if forallb (fun p => has_object_permission p Demo.store0 (Demo.get_by Demo.carol)
                              (ObjAnnotations Demo.ann1))
                  (DEFAULT_PERMISSION_CLASSES Demo.drf_defaults)
       then (Response_data 200 (BAnnotations Demo.ann1), Demo.store0)
       else (Response_status 403, Demo.store0))
  ∧ (∀ k, (∀ b, In b (annotations Demo.store0) -> annotations_id b ≠ k) ->
          respond (AnnotationsJsonDetail.get Demo.drf_defaults (Demo.get_by Demo.carol) k)
                  Demo.store0
          = (Response_status 404, Demo.store0)).
Proof.
  apply (list_and_retrieve_gating Demo.drf_defaults Demo.env0 Demo.store0
           (Demo.get_by Demo.carol) Demo.ann1).
  - apply (bool_decide_unpack _). vm_compute. exact I.
  - simpl. auto.
  - reflexivity.
Defined.

(** * Further properties of the views *)

(** ** Loops and the store *)

Lemma for_each_preserves {A} (P : Store -> Prop) (body : A -> M unit) (l : list A) :
  (∀ x st o st', In x l -> P st -> body x st = (o, st') -> P st') ->
  ∀ st o st', P st -> for_each body l st = (o, st') -> P st'.
Proof.
  induction l as [|x l IH]; intros Hstep st o st' HP; simpl.
  - intros [= <- <-]. done.
  - unfold mbind, M_bind. destruct (body x st) as [[[]|e] st1] eqn:Hx.
    + apply IH; [intros; eapply Hstep; eauto using in_cons|].
      eapply Hstep; eauto using in_eq.
    + intros [= <- <-]. eapply Hstep; eauto using in_eq.
Qed.

Lemma listed_groups_none (st : Store) (r : Request) :
  d_group_ids (req_data r) = None -> listed_groups st r = [].
Proof.
  intros Hg. unfold listed_groups. rewrite Hg. simpl.
  apply filter_none. intros g _. reflexivity.
Qed.

Lemma same_but_view_obj_refl (st : Store) : same_but_view_obj st st.
Proof. unfold same_but_view_obj. by rewrite set_view_obj_id. Qed.

Lemma same_but_view_obj_set (st : Store) (Q : gset (nat * nat)) :
  same_but_view_obj st (set_view_obj Q st).
Proof. reflexivity. Qed.

Lemma same_but_view_obj_step (st0 st : Store) (Q : gset (nat * nat)) :
  same_but_view_obj st0 st -> same_but_view_obj st0 (set_view_obj Q st).
Proof. unfold same_but_view_obj. intros ->. reflexivity. Qed.

Lemma same_but_view_obj_listed (st0 st : Store) (r : Request) :
  same_but_view_obj st0 st ->
  listed_groups st r = listed_groups st0 r ∧ referenced_images st r = referenced_images st0 r.
Proof. unfold same_but_view_obj. intros ->. done. Qed.

(** One iteration of [ShareImages.post], case by case. *)
Lemma post_image_run (r : Request) (i : Image) (st : Store) :
  ShareImages.post_image r i st =
    if is_owner r (ObjImage i)
    then match d_public (req_data r) with
         | None => (Raise (KeyError "public"), st)
         | Some VOther => (Raise (AttributeError "lower"), st)
         | Some (VStr v) =>
             if ShareImages.is_true v
             then match List.filter (fun g : Group => group_id g =? PUBLIC_GROUP_ID) (groups st) with
                  | [] => (Raise (DoesNotExist MGroup), st)
                  | [g] => (Ok tt,
                            set_view_obj
                              (grant_all (listed_groups st r) i
                                 ({[ (group_id g, image_id i) ]} ∪ view_obj st)) st)
                  | _ => (Raise (MultipleObjectsReturned MGroup), st)
                  end
             else (Ok tt, set_view_obj (grant_all (listed_groups st r) i (view_obj st)) st)
         end
    else (Raise PermissionDenied, st).
Proof.
  unfold ShareImages.post_image, mbind, M_bind. rewrite owner_check.
  destruct (is_owner r (ObjImage i)); [|done].
  unfold ShareImages.data_public.
  destruct (d_public (req_data r)) as [[v|]|] eqn:Hpub; [|done|done].
  simpl. destruct (ShareImages.is_true v).
  - unfold objects_get. simpl_model.
    destruct (List.filter _ (groups st)) as [|g [|g' l]]; [done| |done].
    unfold assign_perm at 1, modify.
    destruct (d_group_ids (req_data r)) as [gids|] eqn:Hg.
    + unfold objects_filter_id_in. simpl_model. rewrite for_each_assign.
      unfold listed_groups. rewrite Hg. done.
    + rewrite (listed_groups_none _ _ Hg). done.
  - simpl. destruct (d_group_ids (req_data r)) as [gids|] eqn:Hg.
    + unfold objects_filter_id_in. simpl_model. rewrite for_each_assign.
      unfold listed_groups. rewrite Hg. done.
    + rewrite (listed_groups_none _ _ Hg). simpl. by rewrite set_view_obj_id.
Qed.

(** An iteration that raises leaves the store as it was; one that completes
    was for an image of the requester and adds exactly its pairs. *)
Lemma post_image_cases (r : Request) (i : Image) (st st' : Store) (o : Outcome unit) :
  ShareImages.post_image r i st = (o, st') ->
  (st' = st ∧ ∃ e, o = Raise e)
  ∨ (o = Ok tt ∧ owns (req_user r) i ∧ same_but_view_obj st st'
     ∧ ∀ x, x ∈ view_obj st' ↔ x ∈ view_obj st ∨ granted_by st r i x).
Proof.
  rewrite post_image_run. unfold granted_by, public_flag.
  destruct (is_owner r (ObjImage i)) eqn:Ho; [|intros [= <- <-]; eauto].
  apply is_owner_image_spec in Ho.
  destruct (d_public (req_data r)) as [[v|]|];
    [|intros [= <- <-]; eauto|intros [= <- <-]; eauto].
  destruct (ShareImages.is_true v).
  - destruct (List.filter _ (groups st)) as [|g [|g' l]] eqn:Hf;
      [intros [= <- <-]; eauto | | intros [= <- <-]; eauto].
    assert (Hg : group_id g = PUBLIC_GROUP_ID).
    { assert (Hin : In g (List.filter (fun g : Group => group_id g =? PUBLIC_GROUP_ID) (groups st)))
        by (rewrite Hf; simpl; auto).
      apply filter_In in Hin as [_ Hin]. by apply Nat.eqb_eq. }
    intros [= <- <-]. right. split_and!; [done | done | apply same_but_view_obj_set |].
    intros [a b]. simpl. rewrite elem_of_grant_all, elem_of_union, elem_of_singleton, Hg. split.
    + intros [[[= -> ->]|H]|(g0 & Hg0 & [= -> ->])]; eauto 8.
    + intros [H|[-> [[-> _]|(g0 & Hg0 & ->)]]]; eauto 8.
  - intros [= <- <-]. right. split_and!; [done | done | apply same_but_view_obj_set |].
    intros [a b]. simpl. rewrite elem_of_grant_all. split.
    + intros [H|(g0 & Hg0 & [= -> ->])]; eauto 8.
    + intros [H|[-> [[_ [=]]|(g0 & Hg0 & ->)]]]; eauto 8.
Qed.


Lemma post_invalid_spec (r : Request) :
  ShareImages.post_invalid (req_data r) = true
  ↔ d_image_ids (req_data r) = None
    ∨ (d_group_ids (req_data r) = None ∧ public_flag r = false).
Proof.
  unfold ShareImages.post_invalid, public_flag.
  destruct (d_image_ids (req_data r)) as [iids|], (d_group_ids (req_data r)) as [gids|],
    (d_public (req_data r)) as [[v|]|]; simpl;
    try destruct (ShareImages.is_true v); simpl; split; intros H;
    try done; auto; destruct H as [H|[H1 H2]]; done.
Qed.

(** ** Granting view permission *)

Lemma post_refused (r : Request) (st : Store) :
  ShareImages.post_test (req_data r) st = (Ok true, st) ->
  respond (ShareImages.post r) st = (Response_status 400, st).
Proof.
  intros H. unfold respond, ShareImages.post. unfold mbind at 1, M_bind at 1. by rewrite H.
Qed.

Lemma post_test_raises (r : Request) (st : Store) (e : Exn) :
  ShareImages.post_test (req_data r) st = (Raise e, st) ->
  respond (ShareImages.post r) st = (handle_exception e, st).
Proof.
  intros H. unfold respond, ShareImages.post. unfold mbind at 1, M_bind at 1. by rewrite H.
Qed.

Lemma post_not_valid (r : Request) (st : Store) :
  ShareImages.post_invalid (req_data r) = true ->
  store_after (ShareImages.post r) st = st.
Proof.
  intros Hinv. pose proof (post_test_run (req_data r) st) as Hrun.
  rewrite Hinv in Hrun. unfold store_after.
  destruct (d_image_ids (req_data r)) as [iids|], (d_group_ids (req_data r)) as [gids|],
    (d_public (req_data r)) as [[v|]|];
    first [by rewrite (post_refused r st Hrun) | by rewrite (post_test_raises r st _ Hrun)].
Qed.


(** A JSON boolean under [public]: the validation raises when it has to
    look at it, and otherwise the first iteration does. *)
Example ShareImages_post_boolean_public :
  respond (ShareImages.post (mkRequest Demo.alice POST
             (mkData (Some [1]) None (Some VOther) None None))) Demo.store0
  = (Response_status 500, Demo.store0)
  ∧ respond (ShareImages.post (mkRequest Demo.alice POST
               (mkData (Some [1]) (Some [2]) (Some VOther) None None))) Demo.store0
    = (Response_status 500, Demo.store0)
  ∧ respond (ShareImages.post (mkRequest Demo.alice POST
               (mkData None (Some [2]) (Some VOther) None None))) Demo.store0
    = (Response_status 400, Demo.store0).
Proof. split_and!; reflexivity. Qed.

(** X2. Whatever the request and however it ends, [ShareImages.post]
    changes nothing but the view grants, removes no grant, and every grant
    it adds is on a referenced image that the requester owns, for the
    public group (flag true) or for a listed group. *)
Theorem ShareImages_post_only_adds_owned (r : Request) (st : Store) :
  same_but_view_obj st (store_after (ShareImages.post r) st)
  ∧ ∀ x, (x ∈ view_obj st -> x ∈ view_obj (store_after (ShareImages.post r) st))
         ∧ (x ∈ view_obj (store_after (ShareImages.post r) st) -> x ∉ view_obj st ->
            ∃ i, In i (referenced_images st r) ∧ owns (req_user r) i
                 ∧ granted_by st r i x).
Proof.
  set (P := fun st' : Store =>
    same_but_view_obj st st'
    ∧ ∀ x, (x ∈ view_obj st -> x ∈ view_obj st')
           ∧ (x ∈ view_obj st' -> x ∉ view_obj st ->
              ∃ i, In i (referenced_images st r) ∧ owns (req_user r) i
                   ∧ granted_by st r i x)).
  assert (HP0 : P st) by (split; [apply same_but_view_obj_refl | by intros x; split]).
  change (P (store_after (ShareImages.post r) st)).
  destruct (ShareImages.post_invalid (req_data r)) eqn:Hinv.
  { by rewrite post_not_valid. }
  unfold store_after, respond.
  rewrite post_valid by done.
  destruct (for_each _ _ st) as [o st'] eqn:Hrun.
  assert (HP : P st').
  { revert Hrun. apply for_each_preserves; [|exact HP0].
    intros i st1 o1 st2 Hi [Hsame Hx] Hbody.
    apply post_image_cases in Hbody as [[-> _]|(_ & Ho & Hs & Hchar)]; [by split|].
    destruct (same_but_view_obj_listed st st1 r Hsame) as [Hl _].
    split.
    - unfold same_but_view_obj in *. rewrite Hs, Hsame. reflexivity.
    - intros x. split.
      + intros H. apply Hchar. left. by apply Hx.
      + intros H Hno. apply Hchar in H as [H|H]; [by apply Hx|].
        exists i. split_and!; [done..|].
        unfold granted_by in *. by rewrite <- Hl. }
  by destruct o as [[]|e].
Qed.

(** X3. A valid request whose [image_ids] match no stored image is answered
    200 and changes nothing, also when it carries no [public] key. *)
Theorem ShareImages_post_empty_batch (r : Request) (st : Store) :
  ShareImages.post_invalid (req_data r) = false ->
  referenced_images st r = [] ->
  respond (ShareImages.post r) st = (Response_status 200, st).
Proof.
  intros Hv Href. unfold respond. rewrite post_valid by done. by rewrite Href.
Qed.

Lemma ShareImages_post_empty_batch_witness :
  respond (ShareImages.post (grant_request Demo.alice [7; 8] [2] None)) Demo.store0
  = (Response_status 200, Demo.store0).
Proof.
  apply (ShareImages_post_empty_batch (grant_request Demo.alice [7; 8] [2] None) Demo.store0).
  - reflexivity.
  - reflexivity.
Defined.

Lemma post_image_completes (r : Request) (i : Image) (st : Store) (v : string) :
  owns (req_user r) i -> d_public (req_data r) = Some (VStr v) ->
  (ShareImages.is_true v = true -> public_group_stored st) ->
  ∃ st', ShareImages.post_image r i st = (Ok tt, st').
Proof.
  intros Ho Hpub Hgrp. apply is_owner_image_spec in Ho.
  rewrite post_image_run, Ho, Hpub.
  destruct (ShareImages.is_true v); [|eauto].
  destruct Hgrp as [g Hg]; [done|]. rewrite Hg. eauto.
Qed.

Lemma post_loop_completes (r : Request) (st0 : Store) (v : string) (l : list Image) :
  d_public (req_data r) = Some (VStr v) ->
  (ShareImages.is_true v = true -> public_group_stored st0) ->
  (∀ i, In i l -> owns (req_user r) i) ->
  ∀ st, same_but_view_obj st0 st ->
    ∃ st', for_each (ShareImages.post_image r) l st = (Ok tt, st')
           ∧ same_but_view_obj st0 st'
           ∧ ∀ x, x ∈ view_obj st'
                  ↔ x ∈ view_obj st ∨ ∃ i, In i l ∧ granted_by st0 r i x.
Proof.
  intros Hpub Hgrp. induction l as [|i l IH]; intros Ho st Hsame; simpl.
  - exists st. split_and!; [done..|]. intros x. split; [auto|].
    intros [H|(i & [] & _)]. done.
  - destruct (post_image_completes r i st v) as [st1 Hrun]; [auto using in_eq | done | |].
    { intros Hv. unfold public_group_stored, same_but_view_obj in *.
      rewrite Hsame. simpl. by apply Hgrp. }
    pose proof Hrun as Hc.
    apply post_image_cases in Hc as [[_ [e [=]]]|(_ & _ & Hs & Hchar)].
    assert (Hsame1 : same_but_view_obj st0 st1).
    { unfold same_but_view_obj in *. rewrite Hs, Hsame. reflexivity. }
    destruct (IH (fun j Hj => Ho j (in_cons _ _ _ Hj)) st1 Hsame1) as (st' & Hrest & Hsame' & Hchar').
    exists st'. unfold mbind, M_bind. rewrite Hrun. split_and!; [done..|].
    destruct (same_but_view_obj_listed st0 st r Hsame) as [Hl _].
    intros x. rewrite Hchar', Hchar. unfold granted_by in *. rewrite Hl. split.
    + intros [[H|H]|(j & Hj & H)]; eauto.
    + intros [H|(j & [<-|Hj] & H)]; eauto.
Qed.

(** X4. A valid request that carries a string under [public], from a
    requester who owns every referenced image, is answered 200 (when the
    string reads true, provided the public group is stored); afterwards the
    grants are those held before together with, for every referenced image,
    the public group if the string reads true and every listed group;
    nothing else changes. *)
Theorem ShareImages_post_grants_batch (r : Request) (st : Store) (v : string) :
  ShareImages.post_invalid (req_data r) = false ->
  d_public (req_data r) = Some (VStr v) ->
  (ShareImages.is_true v = true -> public_group_stored st) ->
  (∀ i, In i (referenced_images st r) -> owns (req_user r) i) ->
  response_of (ShareImages.post r) st = Response_status 200
  ∧ same_but_view_obj st (store_after (ShareImages.post r) st)
  ∧ ∀ x, x ∈ view_obj (store_after (ShareImages.post r) st)
         ↔ x ∈ view_obj st ∨ ∃ i, In i (referenced_images st r) ∧ granted_by st r i x.
Proof.
  intros Hv Hpub Hgrp Ho.
  destruct (post_loop_completes r st v (referenced_images st r) Hpub Hgrp Ho st
              (same_but_view_obj_refl st)) as (st' & Hrun & Hsame & Hchar).
  unfold response_of, store_after, respond. rewrite post_valid, Hrun by done. done.
Qed.

Lemma ShareImages_post_grants_batch_witness :
  response_of (ShareImages.post (grant_request Demo.alice [1] [2] (Some "True"))) Demo.store0
    = Response_status 200
  ∧ same_but_view_obj Demo.store0
      (store_after (ShareImages.post (grant_request Demo.alice [1] [2] (Some "True"))) Demo.store0)
  ∧ ∀ x, x ∈ view_obj (store_after (ShareImages.post
                          (grant_request Demo.alice [1] [2] (Some "True"))) Demo.store0)
         ↔ x ∈ view_obj Demo.store0
           ∨ ∃ i, In i (referenced_images Demo.store0
                          (grant_request Demo.alice [1] [2] (Some "True")))
                  ∧ granted_by Demo.store0 (grant_request Demo.alice [1] [2] (Some "True")) i x.
Proof.
  apply (ShareImages_post_grants_batch (grant_request Demo.alice [1] [2] (Some "True"))
           Demo.store0 "True").
  - reflexivity.
  - reflexivity.
  - intros _. exists Demo.public_group. reflexivity.
  - simpl. intros i [<-|[]]. reflexivity.
Defined.

(** X5. Sending such a request a second time is answered 200 again and
    leaves the store exactly as the first one left it. *)
Theorem ShareImages_post_idempotent (r : Request) (st : Store) (v : string) :
  ShareImages.post_invalid (req_data r) = false ->
  d_public (req_data r) = Some (VStr v) ->
  (ShareImages.is_true v = true -> public_group_stored st) ->
  (∀ i, In i (referenced_images st r) -> owns (req_user r) i) ->
  respond (ShareImages.post r) (store_after (ShareImages.post r) st)
  = (Response_status 200, store_after (ShareImages.post r) st).
Proof.
  intros Hv Hpub Hgrp Ho.
  destruct (post_loop_completes r st v (referenced_images st r) Hpub Hgrp Ho st
              (same_but_view_obj_refl st)) as (st1 & Hrun & Hsame & Hchar).
  unfold store_after, respond at 2 3. rewrite post_valid, Hrun by done. simpl.
  destruct (same_but_view_obj_listed st st1 r Hsame) as [_ Href].
  destruct (post_loop_completes r st v (referenced_images st r) Hpub Hgrp Ho st1 Hsame)
    as (st2 & Hrun2 & Hsame2 & Hchar2).
  unfold respond. rewrite post_valid, Href, Hrun2 by done. f_equal.
  unfold same_but_view_obj in Hsame, Hsame2. rewrite Hsame2, Hsame at 1. f_equal.
  apply set_eq. intros x. rewrite Hchar2, Hchar. tauto.
Qed.

Lemma ShareImages_post_idempotent_witness :
  respond (ShareImages.post (grant_request Demo.alice [1] [2] (Some "false")))
          (store_after (ShareImages.post (grant_request Demo.alice [1] [2] (Some "false")))
                       Demo.store0)
  = (Response_status 200,
     store_after (ShareImages.post (grant_request Demo.alice [1] [2] (Some "false")))
                 Demo.store0).
Proof.
  apply (ShareImages_post_idempotent (grant_request Demo.alice [1] [2] (Some "false"))
           Demo.store0 "false").
  - reflexivity.
  - reflexivity.
  - intros H. discriminate H.
  - simpl. intros i [<-|[]]. reflexivity.
Defined.

(** X6. When the [public] value reads true and no group carries the key 1,
    a valid request whose first referenced image belongs to the requester
    is answered 500 and grants nothing, the listed groups included. *)
Theorem ShareImages_post_public_group_missing (r : Request) (st : Store) (v : string)
    (i : Image) (rest : list Image) :
  d_image_ids (req_data r) <> None ->
  d_public (req_data r) = Some (VStr v) -> ShareImages.is_true v = true ->
  (∀ g, In g (groups st) -> group_id g ≠ PUBLIC_GROUP_ID) ->
  referenced_images st r = i :: rest -> owns (req_user r) i ->
  respond (ShareImages.post r) st = (Response_status 500, st).
Proof.
  intros Hids Hpub Hv Hno Href Ho. apply is_owner_image_spec in Ho.
  assert (Hinv : ShareImages.post_invalid (req_data r) = false).
  { destruct (ShareImages.post_invalid (req_data r)) eqn:Hinv; [|done].
    apply post_invalid_spec in Hinv as [H|[_ H]]; [done|].
    unfold public_flag in H. rewrite Hpub in H. congruence. }
  unfold respond. rewrite post_valid, Href by done. simpl.
  unfold mbind, M_bind. rewrite post_image_run, Ho, Hpub, Hv.
  rewrite filter_none; [done|].
  intros g Hg. apply Nat.eqb_neq. by apply Hno.
Qed.

Lemma ShareImages_post_public_group_missing_witness :
  respond (ShareImages.post (grant_request Demo.alice [1] [2] (Some "TRUE")))
          store_without_public
  = (Response_status 500, store_without_public).
Proof.
  apply (ShareImages_post_public_group_missing
           (grant_request Demo.alice [1] [2] (Some "TRUE")) store_without_public "TRUE"
           Demo.img1 []).
  - discriminate.
  - reflexivity.
  - reflexivity.
  - simpl. intros g [<-|[]]. discriminate.
  - reflexivity.
  - reflexivity.
Defined.

(** X7. After such a grant, a GET of the media of any referenced image is
    answered 200 for every member of a listed group, and for every user
    when the flag read true. *)
Theorem ShareImages_post_then_GetImage (env : Environ) (r q : Request) (st : Store)
    (v : string) (i : Image) :
  ShareImages.post_invalid (req_data r) = false ->
  d_public (req_data r) = Some (VStr v) ->
  (ShareImages.is_true v = true -> public_group_stored st) ->
  (∀ j, In j (referenced_images st r) -> owns (req_user r) j) ->
  unique_pk (A:=Image) st -> In i (referenced_images st r) -> req_method q = GET ->
  (public_flag r = true
   ∨ ∃ g, In g (listed_groups st r) ∧ (user_id (req_user q), group_id g) ∈ user_groups st) ->
  status (response_of (GetImage.get env q (image_id i))
                      (store_after (ShareImages.post r) st)) = 200.
Proof.
  intros Hv Hpub Hgrp Ho Hnd Hi Hget Hwho.
  destruct (post_loop_completes r st v (referenced_images st r) Hpub Hgrp Ho st
              (same_but_view_obj_refl st)) as (st' & Hrun & Hsame & Hchar).
  unfold store_after, respond. rewrite post_valid, Hrun by done. simpl.
  assert (Hin : In i (images st)) by (by apply filter_In in Hi as [Hi _]).
  assert (Himgs : images st' = images st ∧ user_groups st' = user_groups st)
    by (unfold same_but_view_obj in Hsame; by rewrite Hsame).
  destruct Himgs as [Himgs Hug].
  assert (Hview : can_view st' (req_user q) i).
  { right. destruct Hwho as [Hflag|(g & Hg & Hm)].
    - right. unfold public. apply Hchar. right. exists i. split; [done|].
      split; [done|]. by left.
    - left. exists (group_id g). rewrite Hug. split; [done|].
      apply Hchar. right. exists i. split; [done|]. split; [done|]. right. eauto. }
  unfold response_of, respond, GetImage.get, mbind, M_bind.
  rewrite GetImage_get_object_found;
    [| by unfold unique_pk in *; simpl_model; rewrite Himgs | by rewrite Himgs].
  apply GetImage_predicate_spec in Hview; [|by rewrite Hget]. by rewrite Hview.
Qed.

Lemma ShareImages_post_then_GetImage_witness :
  status (response_of (GetImage.get Demo.env0 (Demo.get_by Demo.bob) 1)
            (store_after (ShareImages.post (grant_request Demo.alice [1] [2] (Some "false")))
                         Demo.store0)) = 200.
Proof.
  apply (ShareImages_post_then_GetImage Demo.env0
           (grant_request Demo.alice [1] [2] (Some "false")) (Demo.get_by Demo.bob)
           Demo.store0 "false" Demo.img1).
  - reflexivity.
  - reflexivity.
  - intros H. discriminate H.
  - simpl. intros j [<-|[]]. reflexivity.
  - apply (bool_decide_unpack _). vm_compute. exact I.
  - simpl. auto.
  - reflexivity.
  - right. exists Demo.team. split; [simpl; auto|].
    apply (bool_decide_unpack _). vm_compute. exact I.
Defined.

(** ** Revoking view permission *)


Lemma delete_image_run (r : Request) (i : Image) (st : Store) :
  ShareImages.delete_image r i st =
    if is_owner r (ObjImage i)
    then (Ok tt, set_view_obj (revoke_all (listed_groups st r) i (view_obj st)) st)
    else (Raise PermissionDenied, st).
Proof.
  unfold ShareImages.delete_image, mbind, M_bind. rewrite owner_check.
  destruct (is_owner r (ObjImage i)); [|done].
  unfold objects_filter_id_in. simpl_model. by rewrite for_each_remove.
Qed.

Lemma delete_image_cases (r : Request) (i : Image) (st st' : Store) (o : Outcome unit) :
  ShareImages.delete_image r i st = (o, st') ->
  (st' = st ∧ ∃ e, o = Raise e)
  ∨ (o = Ok tt ∧ owns (req_user r) i ∧ same_but_view_obj st st'
     ∧ ∀ x, x ∈ view_obj st' ↔ x ∈ view_obj st ∧ ¬ revoked_by st r i x).
Proof.
  rewrite delete_image_run. unfold revoked_by.
  destruct (is_owner r (ObjImage i)) eqn:Ho; [|intros [= <- <-]; eauto].
  apply is_owner_image_spec in Ho.
  intros [= <- <-]. right. split_and!; [done | done | apply same_but_view_obj_set |].
  intros [a b]. simpl. rewrite elem_of_revoke_all. split.
  - intros [H Hno]. split; [done|]. intros [-> (g & Hg & ->)]. apply Hno. eauto.
  - intros [H Hno]. split; [done|]. intros (g & Hg & [= -> ->]). apply Hno. eauto.
Qed.


(** X9. Whatever the request and however it ends, [ShareImages.delete]
    changes nothing but the view grants, adds no grant, and every grant it
    removes is that of a listed group on a referenced image that the
    requester owns: the public group keeps its grant unless it is listed. *)
Theorem ShareImages_delete_only_removes_owned (r : Request) (st : Store) :
  same_but_view_obj st (store_after (ShareImages.delete r) st)
  ∧ ∀ x, (x ∈ view_obj (store_after (ShareImages.delete r) st) -> x ∈ view_obj st)
         ∧ (x ∈ view_obj st -> x ∉ view_obj (store_after (ShareImages.delete r) st) ->
            ∃ i, In i (referenced_images st r) ∧ owns (req_user r) i
                 ∧ revoked_by st r i x).
Proof.
  set (P := fun st' : Store =>
    same_but_view_obj st st'
    ∧ ∀ x, (x ∈ view_obj st' -> x ∈ view_obj st)
           ∧ (x ∈ view_obj st -> x ∉ view_obj st' ->
              ∃ i, In i (referenced_images st r) ∧ owns (req_user r) i
                   ∧ revoked_by st r i x)).
  assert (HP0 : P st) by (split; [apply same_but_view_obj_refl | by intros x; split]).
  change (P (store_after (ShareImages.delete r) st)).
  unfold store_after, respond.
  destruct (ShareImages.delete_invalid (req_data r)) eqn:Hinv.
  { unfold ShareImages.delete. rewrite Hinv. done. }
  rewrite delete_valid by done.
  destruct (for_each _ _ st) as [o st'] eqn:Hrun.
  assert (HP : P st').
  { revert Hrun. apply for_each_preserves; [|exact HP0].
    intros i st1 o1 st2 Hi [Hsame Hx] Hbody.
    apply delete_image_cases in Hbody as [[-> _]|(_ & Ho & Hs & Hchar)]; [by split|].
    destruct (same_but_view_obj_listed st st1 r Hsame) as [Hl _].
    split.
    - unfold same_but_view_obj in *. rewrite Hs, Hsame. reflexivity.
    - intros x. split.
      + intros H. apply Hchar in H as [H _]. by apply Hx.
      + intros H Hno.
        destruct (decide (x ∈ view_obj st1)) as [H1|H1]; [|by apply Hx].
        exists i. split_and!; [done..|].
        unfold revoked_by in *. rewrite <- Hl.
        destruct (decide (snd x = image_id i)) as [Hsnd|Hsnd].
        * split; [done|].
          destruct (List.existsb (fun g => fst x =? group_id g) (listed_groups st1 r)) eqn:Hex.
          -- apply existsb_exists in Hex as (g & Hg & Heq). apply Nat.eqb_eq in Heq. eauto.
          -- exfalso. apply Hno, Hchar. split; [done|].
             intros (_ & g & Hg & Heq).
             assert (List.existsb (fun g => fst x =? group_id g) (listed_groups st1 r) = true);
               [|congruence].
             apply existsb_exists. exists g. split; [done|]. by apply Nat.eqb_eq.
        * exfalso. apply Hno, Hchar. split; [done|]. by intros [? _]. }
  by destruct o as [[]|e].
Qed.

(** X10. A revoke that lists both keys stops with 403 at the first
    referenced image the requester does not own, and what it has removed
    stays removed: the grants left are those held before, less the grants
    of the listed groups on the images before that one. *)
Theorem ShareImages_delete_stops_at_first_unowned (r : Request) (st : Store)
    (pre rest : list Image) (bad : Image) :
  ShareImages.delete_invalid (req_data r) = false ->
  referenced_images st r = pre ++ bad :: rest ->
  (∀ i, In i pre -> owns (req_user r) i) ->
  ¬ owns (req_user r) bad ->
  respond (ShareImages.delete r) st
  = (Response_status 403,
     set_view_obj (revoke_batch (listed_groups st r) pre (view_obj st)) st)
  ∧ ∀ x, x ∈ revoke_batch (listed_groups st r) pre (view_obj st)
         ↔ x ∈ view_obj st ∧ ¬ batch_pair (listed_groups st r) pre x.
Proof.
  intros Hv Href Hpre Hbad. split; [|intros x; apply elem_of_revoke_batch].
  unfold respond. rewrite delete_valid, Href by done.
  set (st_pre := set_view_obj (revoke_batch (listed_groups st r) pre (view_obj st)) st).
  rewrite (for_each_stops _ pre rest bad st st_pre st_pre PermissionDenied).
  - done.
  - by apply delete_loop_groups.
  - by apply delete_image_not_owner.
Qed.

Lemma ShareImages_delete_stops_at_first_unowned_witness :
  respond (ShareImages.delete (revoke_request Demo.alice [1; 2] [2])) Demo.store2
  = (Response_status 403,
     set_view_obj (revoke_batch (listed_groups Demo.store2 (revoke_request Demo.alice [1; 2] [2]))
                     [Demo.img1] (view_obj Demo.store2)) Demo.store2)
  ∧ ∀ x, x ∈ revoke_batch (listed_groups Demo.store2 (revoke_request Demo.alice [1; 2] [2]))
               [Demo.img1] (view_obj Demo.store2)
         ↔ x ∈ view_obj Demo.store2
           ∧ ¬ batch_pair (listed_groups Demo.store2 (revoke_request Demo.alice [1; 2] [2]))
                          [Demo.img1] x.
Proof.
  apply (ShareImages_delete_stops_at_first_unowned (revoke_request Demo.alice [1; 2] [2])
           Demo.store2 [Demo.img1] [] Demo.img2).
  - reflexivity.
  - reflexivity.
  - simpl. intros i [<-|[]]. reflexivity.
  - unfold owns. simpl. discriminate.
Defined.

(** X11. A revoke that lists both keys, from a requester who owns every
    referenced image, is answered 200; afterwards the grants are those held
    before less the grants of the listed groups on the referenced images,
    and nothing else changes. *)
Theorem ShareImages_delete_revokes_batch (r : Request) (st : Store) :
  ShareImages.delete_invalid (req_data r) = false ->
  (∀ i, In i (referenced_images st r) -> owns (req_user r) i) ->
  response_of (ShareImages.delete r) st = Response_status 200
  ∧ same_but_view_obj st (store_after (ShareImages.delete r) st)
  ∧ ∀ x, x ∈ view_obj (store_after (ShareImages.delete r) st)
         ↔ x ∈ view_obj st
           ∧ ¬ batch_pair (listed_groups st r) (referenced_images st r) x.
Proof.
  intros Hv Ho. unfold response_of, store_after, respond.
  rewrite delete_valid, delete_loop_groups by done. simpl.
  split_and!; [done | apply same_but_view_obj_set |].
  intros x. apply elem_of_revoke_batch.
Qed.

Lemma ShareImages_delete_revokes_batch_witness :
  response_of (ShareImages.delete (revoke_request Demo.alice [1] [2])) Demo.store2
    = Response_status 200
  ∧ same_but_view_obj Demo.store2
      (store_after (ShareImages.delete (revoke_request Demo.alice [1] [2])) Demo.store2)
  ∧ ∀ x, x ∈ view_obj (store_after (ShareImages.delete (revoke_request Demo.alice [1] [2]))
                                   Demo.store2)
         ↔ x ∈ view_obj Demo.store2
           ∧ ¬ batch_pair (listed_groups Demo.store2 (revoke_request Demo.alice [1] [2]))
                          (referenced_images Demo.store2 (revoke_request Demo.alice [1] [2])) x.
Proof.
  apply (ShareImages_delete_revokes_batch (revoke_request Demo.alice [1] [2]) Demo.store2).
  - reflexivity.
  - simpl. intros i [<-|[]]. reflexivity.
Defined.

(** Revoking the team's grant leaves the image public. *)
Example revoke_keeps_public :
  is_public (store_after (ShareImages.delete (revoke_request Demo.alice [1] [2])) Demo.store2)
            Demo.img1 = true
  ∧ group_has_view (store_after (ShareImages.delete (revoke_request Demo.alice [1] [2]))
                                Demo.store2) Demo.bob Demo.img1 = false.
Proof. vm_compute. auto. Qed.

(** ** Adding and removing members *)

(** [JoinGroup.post] and [JoinGroup.delete], case by case. *)
Lemma JoinGroup_post_run (r : Request) (name : string) (st : Store) :
  JoinGroup.post r name st =
    if in_group_named st (req_user r) name
    then match d_email (req_data r) with
         | None => (Ok (Response_status 400), st)
         | Some email =>
             match users_with_email st email with
             | [] => (Raise Http404, st)
             | [u] =>
                 match groups_named st name with
                 | [] => (Raise (DoesNotExist MGroup), st)
                 | [g] => (Ok (Response_status 200),
                           set_user_groups ({[ (user_id u, group_id g) ]} ∪ user_groups st) st)
                 | _ => (Raise (MultipleObjectsReturned MGroup), st)
                 end
             | _ => (Raise (MultipleObjectsReturned MUser), st)
             end
         end
    else (Ok (Response_status 403), st).
Proof.
  unfold JoinGroup.post, JoinGroup.get_user_or_404, JoinGroup.get_group_or_404,
    users_with_email, groups_named.
  unfold_monad. simpl_model.
  destruct (in_group_named st (req_user r) name); [|done]. simpl.
  destruct (d_email (req_data r)) as [email|]; [|done].
  destruct (List.filter _ (users st)) as [|u [|u' lu]]; [done| |done].
  destruct (List.filter _ (groups st)) as [|g [|g' lg]]; done.
Qed.

Lemma JoinGroup_delete_run (r : Request) (name : string) (st : Store) :
  JoinGroup.delete r name st =
    if in_group_named st (req_user r) name
    then match d_email (req_data r) with
         | None => (Ok (Response_status 400), st)
         | Some email =>
             match users_with_email st email with
             | [] => (Raise Http404, st)
             | [u] =>
                 match groups_named st name with
                 | [] => (Raise (DoesNotExist MGroup), st)
                 | [g] => (Ok (Response_status 200),
                           set_user_groups (user_groups st ∖ {[ (user_id u, group_id g) ]}) st)
                 | _ => (Raise (MultipleObjectsReturned MGroup), st)
                 end
             | _ => (Raise (MultipleObjectsReturned MUser), st)
             end
         end
    else (Ok (Response_status 403), st).
Proof.
  unfold JoinGroup.delete, JoinGroup.get_user_or_404, JoinGroup.get_group_or_404,
    users_with_email, groups_named, groups_remove.
  unfold_monad. simpl_model.
  destruct (in_group_named st (req_user r) name); [|done]. simpl.
  destruct (d_email (req_data r)) as [email|]; [|done].
  destruct (List.filter _ (users st)) as [|u [|u' lu]]; [done| |done].
  destruct (List.filter _ (groups st)) as [|g [|g' lg]]; done.
Qed.

Lemma users_with_email_In (st : Store) (email : string) (u : User) :
  In u (users_with_email st email) ↔ In u (users st) ∧ user_email u = email.
Proof. unfold users_with_email. rewrite filter_In, String.eqb_eq. done. Qed.

Lemma groups_named_In (st : Store) (name : string) (g : Group) :
  In g (groups_named st name) ↔ In g (groups st) ∧ group_name g = name.
Proof. unfold groups_named. rewrite filter_In, String.eqb_eq. done. Qed.

Lemma member_group_named (st : Store) (u : User) (name : string) :
  in_group_named st u name = true -> ∃ g, In g (groups_named st name).
Proof.
  intros Hm. apply in_group_named_spec in Hm as (g & Hg & Hn & _).
  exists g. by apply groups_named_In.
Qed.

Lemma groups_named_unique (st : Store) (name : string) (g : Group) :
  unique_group_names st -> In g (groups_named st name) -> groups_named st name = [g].
Proof.
  intros Hnd Hg. apply groups_named_In in Hg as [Hg Hn].
  apply (filter_unique group_name _ name); auto.
  intros y. apply String.eqb_eq.
Qed.


(** C5, as stated, fails.  Bob is a member of the team and asks to add the
    user with Carol's email; a user with that email exists and so does the
    group, but two users have the email: [User.objects.get] raises
    [MultipleObjectsReturned], the request is answered 500 and nobody is
    added. *)
Lemma JoinGroup_post_shared_email :
  in_group_named store_shared_email Demo.bob "team" = true
  ∧ d_email (req_data (Demo.join Demo.bob "carol@example.org")) = Some "carol@example.org"%string
  ∧ In Demo.carol (users store_shared_email)
  ∧ user_email Demo.carol = "carol@example.org"%string
  ∧ In Demo.team (groups store_shared_email)
  ∧ group_name Demo.team = "team"%string
  ∧ JoinGroup.get_user_or_404 "carol@example.org" store_shared_email
    = (Raise (MultipleObjectsReturned MUser), store_shared_email)
  ∧ respond (JoinGroup.post (Demo.join Demo.bob "carol@example.org") "team") store_shared_email
    = (Response_status 500, store_shared_email).
Proof.
  split_and!; try done; simpl; auto.
Qed.

(** C5, amended.  Let the request carry an email.  When no group has the
    requested name, the answer is 403, not 404: the acting user cannot be a
    member.  When the acting user is a member of a group with that name,
    [post] resolves that group; it answers 404 and changes nothing when no
    user has the email; and when exactly one user has the email, it adds
    that user to the group and answers 200.  Group names identify their
    rows. *)
Theorem JoinGroup_post_by_member (st : Store) (r : Request) (name email : string) :
  unique_group_names st ->
  d_email (req_data r) = Some email ->
  ((∀ g, In g (groups st) -> group_name g ≠ name) ->
     respond (JoinGroup.post r name) st = (Response_status 403, st))
  ∧ (in_group_named st (req_user r) name = true ->
     ∃ g, In g (groups st) ∧ group_name g = name
          ∧ JoinGroup.get_group_or_404 name st = (Ok g, st)
          ∧ ((∀ u, In u (users st) -> user_email u ≠ email) ->
             respond (JoinGroup.post r name) st = (Response_status 404, st))
          ∧ ∀ u, users_with_email st email = [u] ->
              In u (users st) ∧ user_email u = email
              ∧ respond (JoinGroup.post r name) st
                = (Response_status 200,
                   set_user_groups ({[ (user_id u, group_id g) ]} ∪ user_groups st) st)).
Proof.
  intros Hgn He. split.
  - intros Habs. apply JoinGroup_post_not_member. by apply JoinGroup_post_no_such_group.
  - intros Hm. destruct (member_group_named _ _ _ Hm) as [g Hg].
    pose proof (groups_named_unique st name g Hgn Hg) as Hg1.
    apply groups_named_In in Hg as [Hg Hn].
    exists g. split_and!; [done | done | subst name; by apply get_group_or_404_found | |].
    + intros Habs. unfold respond. rewrite JoinGroup_post_run, Hm, He.
      assert (Hnone : users_with_email st email = []).
      { apply filter_none. intros u Hu. apply String.eqb_neq. by apply Habs. }
      by rewrite Hnone.
    + intros u Hu.
      assert (Hin : In u (users_with_email st email)) by (rewrite Hu; simpl; auto).
      apply users_with_email_In in Hin as [Hin Hmail].
      split_and!; [done | done |].
      unfold respond. by rewrite JoinGroup_post_run, Hm, He, Hu, Hg1.
Qed.

Lemma JoinGroup_post_by_member_witness :
  ((∀ g, In g (groups store_shared_email) -> group_name g ≠ "team"%string) ->
     respond (JoinGroup.post (Demo.join Demo.bob "alice@example.org") "team") store_shared_email
     = (Response_status 403, store_shared_email))
  ∧ (in_group_named store_shared_email Demo.bob "team" = true ->
     ∃ g, In g (groups store_shared_email) ∧ group_name g = "team"%string
          ∧ JoinGroup.get_group_or_404 "team" store_shared_email = (Ok g, store_shared_email)
          ∧ ((∀ u, In u (users store_shared_email) ->
                   user_email u ≠ "alice@example.org"%string) ->
             respond (JoinGroup.post (Demo.join Demo.bob "alice@example.org") "team")
                     store_shared_email
             = (Response_status 404, store_shared_email))
          ∧ ∀ u, users_with_email store_shared_email "alice@example.org" = [u] ->
              In u (users store_shared_email) ∧ user_email u = "alice@example.org"%string
              ∧ respond (JoinGroup.post (Demo.join Demo.bob "alice@example.org") "team")
                        store_shared_email
                = (Response_status 200,
                   set_user_groups ({[ (user_id u, group_id g) ]}
                                      ∪ user_groups store_shared_email)
                                   store_shared_email)).
Proof.
  apply (JoinGroup_post_by_member store_shared_email
           (Demo.join Demo.bob "alice@example.org") "team" "alice@example.org").
  - apply (bool_decide_unpack _). vm_compute. exact I.
  - reflexivity.
Defined.

(** In the store with the shared email, Alice, whose email is hers alone,
    is added; a request for a group that does not exist is refused. *)
Example JoinGroup_post_one_user :
  users_with_email store_shared_email "alice@example.org" = [Demo.alice]
  ∧ status (response_of (JoinGroup.post (Demo.join Demo.bob "alice@example.org") "team")
                        store_shared_email) = 200
  ∧ (1, 2) ∈ user_groups (store_after (JoinGroup.post (Demo.join Demo.bob "alice@example.org")
                                                       "team") store_shared_email)
  ∧ status (response_of (JoinGroup.post (Demo.join Demo.bob "alice@example.org") "nowhere")
                        store_shared_email) = 403.
Proof.
  split_and!; [done | done | | done].
  apply (bool_decide_unpack _). vm_compute. exact I.
Qed.



Lemma same_but_user_groups_refl (st : Store) : same_but_user_groups st st.
Proof. unfold same_but_user_groups. by destruct st. Qed.

(** X13. Whatever the request and however it ends, [JoinGroup.post] changes
    nothing but the memberships and removes none; a membership it adds is
    that of a user with the requested email in a group with the requested
    name, and the acting user was a member of a group of that name. *)
Theorem JoinGroup_post_only_adds (st : Store) (r : Request) (name : string) :
  same_but_user_groups st (store_after (JoinGroup.post r name) st)
  ∧ ∀ x, (x ∈ user_groups st -> x ∈ user_groups (store_after (JoinGroup.post r name) st))
         ∧ (x ∈ user_groups (store_after (JoinGroup.post r name) st) -> x ∉ user_groups st ->
            in_group_named st (req_user r) name = true
            ∧ ∃ u g, d_email (req_data r) = Some (user_email u)
                     ∧ In u (users st) ∧ In g (groups st) ∧ group_name g = name
                     ∧ x = (user_id u, group_id g)).
Proof.
  unfold store_after, respond. rewrite JoinGroup_post_run.
  pose proof (same_but_user_groups_refl st) as Hrefl.
  destruct (in_group_named st (req_user r) name) eqn:Hm; [|by split].
  destruct (d_email (req_data r)) as [email|]; [|by split].
  destruct (users_with_email st email) as [|u [|u' lu]] eqn:Hu; [by split| |by split].
  destruct (groups_named st name) as [|g [|g' lg]] eqn:Hg; [by split| |by split].
  simpl. split; [reflexivity|]. intros x. split.
  - intros H. by apply elem_of_union_r.
  - intros H Hno. split; [done|].
    apply elem_of_union in H as [H|H]; [|done]. apply elem_of_singleton in H.
    assert (Hin : In u (users_with_email st email)) by (rewrite Hu; simpl; auto).
    assert (Hgin : In g (groups_named st name)) by (rewrite Hg; simpl; auto).
    apply users_with_email_In in Hin as [Hin Heq]. apply groups_named_In in Hgin as [Hgin Hn].
    subst email. exists u, g. done.
Qed.

Lemma JoinGroup_post_200 (st : Store) (r : Request) (name : string) :
  status (response_of (JoinGroup.post r name) st) = 200 ->
  ∃ email u g,
    in_group_named st (req_user r) name = true
    ∧ d_email (req_data r) = Some email
    ∧ users_with_email st email = [u] ∧ groups_named st name = [g]
    ∧ respond (JoinGroup.post r name) st
      = (Response_status 200,
         set_user_groups ({[ (user_id u, group_id g) ]} ∪ user_groups st) st).
Proof.
  unfold response_of, respond. rewrite JoinGroup_post_run.
  destruct (in_group_named st (req_user r) name) eqn:Hm; [|done].
  destruct (d_email (req_data r)) as [email|] eqn:He; [|done].
  destruct (users_with_email st email) as [|u0 [|u' lu]] eqn:Hu; [done| |done].
  destruct (groups_named st name) as [|g [|g' lg]] eqn:Hg; [done| |done].
  intros _. exists email, u0, g. done.
Qed.

Lemma JoinGroup_delete_200 (st : Store) (r : Request) (name : string) :
  status (response_of (JoinGroup.delete r name) st) = 200 ->
  ∃ email u g,
    in_group_named st (req_user r) name = true
    ∧ d_email (req_data r) = Some email
    ∧ users_with_email st email = [u] ∧ groups_named st name = [g]
    ∧ respond (JoinGroup.delete r name) st
      = (Response_status 200,
         set_user_groups (user_groups st ∖ {[ (user_id u, group_id g) ]}) st).
Proof.
  unfold response_of, respond. rewrite JoinGroup_delete_run.
  destruct (in_group_named st (req_user r) name) eqn:Hm; [|done].
  destruct (d_email (req_data r)) as [email|] eqn:He; [|done].
  destruct (users_with_email st email) as [|u0 [|u' lu]] eqn:Hu; [done| |done].
  destruct (groups_named st name) as [|g [|g' lg]] eqn:Hg; [done| |done].
  intros _. exists email, u0, g. done.
Qed.

(** X14. When [JoinGroup.post] answers 200, every user with the requested
    email is afterwards a member of a group with that name, so that a
    [JoinGroup] request of theirs for that name is no longer answered 403;
    and the same request sent again is answered 200 and changes nothing
    further. *)
Theorem JoinGroup_post_target_is_member (st : Store) (r : Request) (name : string) :
  status (response_of (JoinGroup.post r name) st) = 200 ->
  (∀ u, In u (users st) -> d_email (req_data r) = Some (user_email u) ->
        in_group_named (store_after (JoinGroup.post r name) st) u name = true
        ∧ ∀ r', req_user r' = u ->
            status (response_of (JoinGroup.post r' name)
                                (store_after (JoinGroup.post r name) st)) ≠ 403)
  ∧ respond (JoinGroup.post r name) (store_after (JoinGroup.post r name) st)
    = (Response_status 200, store_after (JoinGroup.post r name) st).
Proof.
  intros H200.
  destruct (JoinGroup_post_200 st r name H200) as (email & u0 & g & Hm & He & Hu & Hg & Hrun).
  unfold store_after. rewrite Hrun. simpl.
  set (st' := set_user_groups _ st).
  assert (Hgin : In g (groups_named st name)) by (rewrite Hg; simpl; auto).
  apply groups_named_In in Hgin as [Hgin Hn].
  assert (Hmono : ∀ w, in_group_named st w name = true -> in_group_named st' w name = true).
  { intros w Hw. apply in_group_named_spec in Hw as (g1 & Hg1 & Hn1 & Hin1).
    apply in_group_named_spec. exists g1. split_and!; [done..|]. by apply elem_of_union_r. }
  split.
  - intros u Hin Heq. rewrite He in Heq. injection Heq as ->.
    assert (Hu0 : In u (users_with_email st (user_email u)))
      by (by apply users_with_email_In).
    rewrite Hu in Hu0. destruct Hu0 as [->|[]].
    assert (Hnamed : in_group_named st' u name = true).
    { apply in_group_named_spec. exists g. split_and!; [done..|].
      apply elem_of_union_l. by apply elem_of_singleton. }
    split; [done|]. intros r' <-. by apply JoinGroup_member_passes_check.
  - unfold respond. rewrite JoinGroup_post_run, (Hmono _ Hm), He.
    change (users_with_email st' email) with (users_with_email st email).
    change (groups_named st' name) with (groups_named st name).
    rewrite Hu, Hg. f_equal. unfold st', set_user_groups. simpl. f_equal.
    apply set_eq. intros x. rewrite !elem_of_union. tauto.
Qed.

Lemma JoinGroup_post_target_is_member_witness :
  (∀ u, In u (users Demo.store0) ->
        d_email (req_data (Demo.join Demo.bob "carol@example.org")) = Some (user_email u) ->
        in_group_named (store_after (JoinGroup.post (Demo.join Demo.bob "carol@example.org")
                                                    "team") Demo.store0) u "team" = true
        ∧ ∀ r', req_user r' = u ->
            status (response_of (JoinGroup.post r' "team")
                      (store_after (JoinGroup.post (Demo.join Demo.bob "carol@example.org")
                                                   "team") Demo.store0)) ≠ 403)
  ∧ respond (JoinGroup.post (Demo.join Demo.bob "carol@example.org") "team")
            (store_after (JoinGroup.post (Demo.join Demo.bob "carol@example.org") "team")
                         Demo.store0)
    = (Response_status 200,
       store_after (JoinGroup.post (Demo.join Demo.bob "carol@example.org") "team")
                   Demo.store0).
Proof.
  apply (JoinGroup_post_target_is_member Demo.store0
           (Demo.join Demo.bob "carol@example.org") "team").
  vm_compute. reflexivity.
Defined.

(** X15. When [JoinGroup.delete] answers 200, every user with the requested
    email is afterwards outside every group of that name, and any
    [JoinGroup] request of theirs for that name, to add or to remove, is
    answered 403: a member who removes themselves is locked out. *)
Theorem JoinGroup_delete_target_is_out (st : Store) (r : Request) (name : string) :
  status (response_of (JoinGroup.delete r name) st) = 200 ->
  ∀ u, In u (users st) -> d_email (req_data r) = Some (user_email u) ->
       in_group_named (store_after (JoinGroup.delete r name) st) u name = false
       ∧ ∀ r', req_user r' = u ->
           respond (JoinGroup.post r' name) (store_after (JoinGroup.delete r name) st)
           = (Response_status 403, store_after (JoinGroup.delete r name) st)
           ∧ respond (JoinGroup.delete r' name) (store_after (JoinGroup.delete r name) st)
             = (Response_status 403, store_after (JoinGroup.delete r name) st).
Proof.
  intros H200 u Hin Heq.
  destruct (JoinGroup_delete_200 st r name H200) as (email & u0 & g & Hm & He & Hu & Hg & Hrun).
  unfold store_after. rewrite Hrun. simpl.
  set (st' := set_user_groups _ st).
  rewrite He in Heq. injection Heq as ->.
  assert (Hu0 : In u (users_with_email st (user_email u)))
    by (by apply users_with_email_In).
  rewrite Hu in Hu0. destruct Hu0 as [->|[]].
  assert (Hout : in_group_named st' u name = false).
  { destruct (in_group_named st' u name) eqn:Hnamed; [|done].
    apply in_group_named_spec in Hnamed as (g1 & Hg1 & Hn1 & Hin1).
    assert (Hg1' : In g1 (groups_named st name)) by (by apply groups_named_In).
    rewrite Hg in Hg1'. destruct Hg1' as [->|[]].
    simpl in Hin1. apply elem_of_difference in Hin1 as [_ Hin1].
    exfalso. apply Hin1. by apply elem_of_singleton. }
  split; [done|]. intros r' <-. unfold respond.
  by rewrite JoinGroup_post_run, JoinGroup_delete_run, Hout.
Qed.

Lemma JoinGroup_delete_target_is_out_witness :
  in_group_named (store_after (JoinGroup.delete (Demo.join Demo.bob "bob@example.org")
                                                "team") Demo.store0) Demo.bob "team" = false
  ∧ ∀ r', req_user r' = Demo.bob ->
      respond (JoinGroup.post r' "team")
              (store_after (JoinGroup.delete (Demo.join Demo.bob "bob@example.org") "team")
                           Demo.store0)
      = (Response_status 403,
         store_after (JoinGroup.delete (Demo.join Demo.bob "bob@example.org") "team")
                     Demo.store0)
      ∧ respond (JoinGroup.delete r' "team")
                (store_after (JoinGroup.delete (Demo.join Demo.bob "bob@example.org") "team")
                             Demo.store0)
        = (Response_status 403,
           store_after (JoinGroup.delete (Demo.join Demo.bob "bob@example.org") "team")
                       Demo.store0).
Proof.
  apply (JoinGroup_delete_target_is_out Demo.store0
           (Demo.join Demo.bob "bob@example.org") "team").
  - vm_compute. reflexivity.
  - simpl. auto.
  - reflexivity.
Defined.

(** X16. When [JoinGroup.post] answers 200 for a user who was not yet in
    the group, a [JoinGroup.delete] by the same acting user for the same
    email and name is answered 200 and returns the store to what it was
    before the two requests. *)
Theorem JoinGroup_post_then_delete (st : Store) (r r' : Request) (name : string) :
  status (response_of (JoinGroup.post r name) st) = 200 ->
  req_user r' = req_user r -> d_email (req_data r') = d_email (req_data r) ->
  (∀ u g, In u (users st) -> d_email (req_data r) = Some (user_email u) ->
          In g (groups st) -> group_name g = name ->
          (user_id u, group_id g) ∉ user_groups st) ->
  respond (JoinGroup.delete r' name) (store_after (JoinGroup.post r name) st)
  = (Response_status 200, st).
Proof.
  intros H200 Hsame Hmail Hfresh.
  destruct (JoinGroup_post_200 st r name H200) as (email & u0 & g & Hm & He & Hu & Hg & Hrun).
  unfold store_after. rewrite Hrun. simpl.
  set (st' := set_user_groups _ st).
  assert (Hm' : in_group_named st' (req_user r') name = true).
  { rewrite Hsame. apply in_group_named_spec in Hm as (g1 & Hg1 & Hn1 & Hin1).
    apply in_group_named_spec. exists g1. split_and!; [done..|]. by apply elem_of_union_r. }
  unfold respond. rewrite JoinGroup_delete_run, Hm', Hmail, He.
  change (users_with_email st' email) with (users_with_email st email).
  change (groups_named st' name) with (groups_named st name).
  rewrite Hu, Hg. f_equal.
  assert (Hu0 : In u0 (users_with_email st email)) by (rewrite Hu; simpl; auto).
  assert (Hg0 : In g (groups_named st name)) by (rewrite Hg; simpl; auto).
  apply users_with_email_In in Hu0 as [Hu0 Hmail0].
  apply groups_named_In in Hg0 as [Hg0 Hn0].
  assert (Hno : (user_id u0, group_id g) ∉ user_groups st).
  { apply Hfresh; [done | by rewrite He, Hmail0 | done | done]. }
  transitivity (set_user_groups (user_groups st) st); [|by destruct st].
  unfold st', set_user_groups. simpl. f_equal.
  apply set_eq. intros x. rewrite elem_of_difference, elem_of_union, elem_of_singleton.
  split; [intros [[->|H] Hne]; done|]. intros H. split; [by right|]. by intros ->.
Qed.

Lemma JoinGroup_post_then_delete_witness :
  respond (JoinGroup.delete (Demo.join Demo.bob "carol@example.org") "team")
          (store_after (JoinGroup.post (Demo.join Demo.bob "carol@example.org") "team")
                       Demo.store0)
  = (Response_status 200, Demo.store0).
Proof.
  apply (JoinGroup_post_then_delete Demo.store0 (Demo.join Demo.bob "carol@example.org")
           (Demo.join Demo.bob "carol@example.org") "team").
  - vm_compute. reflexivity.
  - reflexivity.
  - reflexivity.
  - intros u g Hu He Hg Hn. simpl in He. injection He as He.
    simpl in Hu. destruct Hu as [<-|[<-|[<-|[]]]]; try discriminate He.
    simpl in Hg. destruct Hg as [<-|[<-|[]]]; try discriminate Hn.
    apply (bool_decide_unpack _). vm_compute. exact I.
Defined.

(** A user who was in the group before is out of it after the two
    requests. *)
Example JoinGroup_post_then_delete_member :
  in_group_named Demo.store0 Demo.bob "team" = true
  ∧ in_group_named
      (store_after (JoinGroup.delete (Demo.join Demo.bob "bob@example.org") "team")
         (store_after (JoinGroup.post (Demo.join Demo.bob "bob@example.org") "team")
                      Demo.store0))
      Demo.bob "team" = false.
Proof. vm_compute. auto. Qed.

(** X17. Whatever the request and however it ends, [JoinGroup.delete]
    changes nothing but the memberships and adds none; a membership it
    removes is that of a user with the requested email in a group with the
    requested name, and the acting user was a member of a group of that
    name. *)
Theorem JoinGroup_delete_only_removes (st : Store) (r : Request) (name : string) :
  same_but_user_groups st (store_after (JoinGroup.delete r name) st)
  ∧ ∀ x, (x ∈ user_groups (store_after (JoinGroup.delete r name) st) -> x ∈ user_groups st)
         ∧ (x ∈ user_groups st -> x ∉ user_groups (store_after (JoinGroup.delete r name) st) ->
            in_group_named st (req_user r) name = true
            ∧ ∃ u g, d_email (req_data r) = Some (user_email u)
                     ∧ In u (users st) ∧ In g (groups st) ∧ group_name g = name
                     ∧ x = (user_id u, group_id g)).
Proof.
  unfold store_after, respond. rewrite JoinGroup_delete_run.
  pose proof (same_but_user_groups_refl st) as Hrefl.
  destruct (in_group_named st (req_user r) name) eqn:Hm; [|by split].
  destruct (d_email (req_data r)) as [email|]; [|by split].
  destruct (users_with_email st email) as [|u [|u' lu]] eqn:Hu; [by split| |by split].
  destruct (groups_named st name) as [|g [|g' lg]] eqn:Hg; [by split| |by split].
  simpl. split; [reflexivity|]. intros x. split.
  - intros H. by apply elem_of_difference in H as [H _].
  - intros H Hno. split; [done|].
    assert (Hx : x = (user_id u, group_id g)).
    { destruct (decide (x = (user_id u, group_id g))) as [Hx|Hx]; [done|].
      exfalso. apply Hno. apply elem_of_difference. split; [done|].
      by intros Hs%elem_of_singleton. }
    assert (Hin : In u (users_with_email st email)) by (rewrite Hu; simpl; auto).
    assert (Hgin : In g (groups_named st name)) by (rewrite Hg; simpl; auto).
    apply users_with_email_In in Hin as [Hin Heq]. apply groups_named_In in Hgin as [Hgin Hn].
    subst email. exists u, g. done.
Qed.

(** ** Group creation and the stored groups *)

Lemma next_pk_not_in (ids : list nat) : ¬ In (next_pk ids) ids.
Proof. intros Hin. by apply next_pk_fresh in Hin. Qed.

Lemma unique_pk_snoc {A} (key : A -> nat) (l : list A) (x : A) :
  NoDup (List.map key l) -> ¬ In (key x) (List.map key l) ->
  NoDup (List.map key (l ++ [x])).
Proof.
  intros Hnd Hx. rewrite List.map_app. simpl. apply NoDup_app. split_and!.
  - done.
  - intros y Hy Hy'. apply list_elem_of_In in Hy, Hy'.
    destruct Hy' as [<-|[]]. done.
  - apply NoDup_singleton.
Qed.

(** X18. [CreateGroup.post] keeps the store well formed, whether it answers
    201 or 400: group keys stay unique, every membership and every view
    grant still names a stored group, every group stored before is still
    stored, no membership is lost, and users, images and view grants are
    untouched. *)
Theorem CreateGroup_post_keeps_invariants (valid : Store -> Data -> option string)
    (st : Store) (r : Request) :
  unique_pk (A:=Group) st -> memberships_in_groups st -> grants_in_groups st ->
  unique_pk (A:=Group) (store_after (CreateGroup.post valid r) st)
  ∧ memberships_in_groups (store_after (CreateGroup.post valid r) st)
  ∧ grants_in_groups (store_after (CreateGroup.post valid r) st)
  ∧ (∀ g, In g (groups st) -> In g (groups (store_after (CreateGroup.post valid r) st)))
  ∧ (∀ x, x ∈ user_groups st -> x ∈ user_groups (store_after (CreateGroup.post valid r) st))
  ∧ users (store_after (CreateGroup.post valid r) st) = users st
  ∧ images (store_after (CreateGroup.post valid r) st) = images st
  ∧ view_obj (store_after (CreateGroup.post valid r) st) = view_obj st.
Proof.
  intros Hnd Hmem Hgr. unfold store_after.
  destruct (valid st (req_data r)) as [name|] eqn:Hv.
  - rewrite (CreateGroup_post_valid valid st r name Hv). simpl.
    set (new := next_pk (List.map group_id (groups st))).
    split_and!; try done.
    + unfold unique_pk. simpl. apply unique_pk_snoc; [exact Hnd | apply next_pk_not_in].
    + intros u g Hin. simpl in Hin |- *. rewrite List.map_app. apply in_or_app.
      apply elem_of_union in Hin as [Hin|Hin].
      * apply elem_of_singleton in Hin. injection Hin as -> ->. right. simpl. auto.
      * left. by apply (Hmem u g).
    + intros g i Hin. simpl in Hin |- *. rewrite List.map_app. apply in_or_app.
      left. by apply (Hgr g i).
    + intros g Hg. apply in_or_app. by left.
    + intros x Hx. by apply elem_of_union_r.
  - rewrite (CreateGroup_post_invalid valid st r Hv). simpl. done.
Qed.

Lemma CreateGroup_post_keeps_invariants_witness :
  unique_pk (A:=Group) (store_after (CreateGroup.post Demo.name_required
                                       (Demo.create_group Demo.carol "readers")) Demo.store2)
  ∧ memberships_in_groups (store_after (CreateGroup.post Demo.name_required
                                          (Demo.create_group Demo.carol "readers")) Demo.store2)
  ∧ grants_in_groups (store_after (CreateGroup.post Demo.name_required
                                     (Demo.create_group Demo.carol "readers")) Demo.store2)
  ∧ (∀ g, In g (groups Demo.store2) ->
          In g (groups (store_after (CreateGroup.post Demo.name_required
                                       (Demo.create_group Demo.carol "readers")) Demo.store2)))
  ∧ (∀ x, x ∈ user_groups Demo.store2 ->
          x ∈ user_groups (store_after (CreateGroup.post Demo.name_required
                                          (Demo.create_group Demo.carol "readers")) Demo.store2))
  ∧ users (store_after (CreateGroup.post Demo.name_required
                          (Demo.create_group Demo.carol "readers")) Demo.store2)
    = users Demo.store2
  ∧ images (store_after (CreateGroup.post Demo.name_required
                           (Demo.create_group Demo.carol "readers")) Demo.store2)
    = images Demo.store2
  ∧ view_obj (store_after (CreateGroup.post Demo.name_required
                             (Demo.create_group Demo.carol "readers")) Demo.store2)
    = view_obj Demo.store2.
Proof.
  apply (CreateGroup_post_keeps_invariants Demo.name_required Demo.store2
           (Demo.create_group Demo.carol "readers")).
  - apply (bool_decide_unpack _). vm_compute. exact I.
  - intros u g Hin. simpl in Hin. apply elem_of_singleton in Hin.
    injection Hin as -> ->. simpl. auto.
  - intros g i Hin. simpl in Hin. apply elem_of_union in Hin as [Hin|Hin];
      apply elem_of_singleton in Hin; injection Hin as -> ->; simpl; auto.
Defined.

(** X19. In a well-formed store, the group that [CreateGroup.post] creates
    starts with its creator as the only member and with no view grant on
    any image. *)
Theorem CreateGroup_post_new_group_is_private (valid : Store -> Data -> option string)
    (st : Store) (r : Request) :
  memberships_in_groups st -> grants_in_groups st ->
  status (response_of (CreateGroup.post valid r) st) = 201 ->
  ∃ g, body (response_of (CreateGroup.post valid r) st) = BGroup g
       ∧ (∀ u, (u, group_id g) ∈ user_groups (store_after (CreateGroup.post valid r) st)
               ↔ u = user_id (req_user r))
       ∧ ∀ i, (group_id g, i) ∉ view_obj (store_after (CreateGroup.post valid r) st).
Proof.
  intros Hmem Hgr. unfold response_of, store_after.
  destruct (valid st (req_data r)) as [name|] eqn:Hv.
  - rewrite (CreateGroup_post_valid valid st r name Hv). simpl. intros _.
    set (new := next_pk (List.map group_id (groups st))).
    exists (mkGroup new name). simpl. split_and!; [done| |].
    + intros u. rewrite elem_of_union, elem_of_singleton. split.
      * intros [[= ->]|Hin]; [done|].
        apply Hmem in Hin. by apply next_pk_not_in in Hin.
      * intros ->. by left.
    + intros i Hin. apply Hgr in Hin. by apply next_pk_not_in in Hin.
  - rewrite (CreateGroup_post_invalid valid st r Hv). simpl. discriminate.
Qed.

Lemma CreateGroup_post_new_group_is_private_witness :
  ∃ g, body (response_of (CreateGroup.post Demo.name_required
                            (Demo.create_group Demo.carol "readers")) Demo.store0) = BGroup g
       ∧ (∀ u, (u, group_id g)
                 ∈ user_groups (store_after (CreateGroup.post Demo.name_required
                                               (Demo.create_group Demo.carol "readers"))
                                            Demo.store0)
               ↔ u = user_id Demo.carol)
       ∧ ∀ i, (group_id g, i)
                ∉ view_obj (store_after (CreateGroup.post Demo.name_required
                                           (Demo.create_group Demo.carol "readers"))
                                        Demo.store0).
Proof.
  apply (CreateGroup_post_new_group_is_private Demo.name_required Demo.store0
           (Demo.create_group Demo.carol "readers")).
  - intros u g Hin. simpl in Hin. apply elem_of_singleton in Hin.
    injection Hin as -> ->. simpl. auto.
  - intros g i Hin. simpl in Hin. by apply not_elem_of_empty in Hin.
  - reflexivity.
Defined.

Lemma listed_groups_stored (st : Store) (r : Request) (g : Group) :
  In g (listed_groups st r) -> In (group_id g) (List.map group_id (groups st)).
Proof.
  unfold listed_groups. intros Hg. apply filter_In in Hg as [Hg _]. by apply in_map.
Qed.

Lemma post_image_keeps_grants_in_groups (r : Request) (i : Image) (st st' : Store)
    (o : Outcome unit) :
  ShareImages.post_image r i st = (o, st') ->
  grants_in_groups st -> grants_in_groups st' ∧ groups st' = groups st.
Proof.
  rewrite post_image_run. intros Hrun Hgr.
  destruct (is_owner r (ObjImage i)); [|by injection Hrun as <- <-].
  destruct (d_public (req_data r)) as [[v|]|];
    [|by injection Hrun as <- <-|by injection Hrun as <- <-].
  destruct (ShareImages.is_true v).
  - destruct (List.filter _ (groups st)) as [|g [|g' l]] eqn:Hf;
      [by injection Hrun as <- <- | | by injection Hrun as <- <-].
    injection Hrun as <- <-. split; [|done].
    assert (Hg : In g (groups st)).
    { assert (Hin : In g (List.filter (fun g : Group => group_id g =? PUBLIC_GROUP_ID) (groups st)))
        by (rewrite Hf; simpl; auto).
      by apply filter_In in Hin as [Hin _]. }
    intros a b Hin. simpl in Hin |- *.
    apply elem_of_grant_all in Hin as [Hin|(g0 & Hg0 & [= -> ->])].
    + apply elem_of_union in Hin as [Hin|Hin]; [|by apply (Hgr a b)].
      apply elem_of_singleton in Hin. injection Hin as -> ->. by apply in_map.
    + by apply (listed_groups_stored st r).
  - injection Hrun as <- <-. split; [|done].
    intros a b Hin. simpl in Hin |- *.
    apply elem_of_grant_all in Hin as [Hin|(g0 & Hg0 & [= -> ->])].
    + by apply (Hgr a b).
    + by apply (listed_groups_stored st r).
Qed.

(** X20. The sharing endpoint keeps every view grant on a stored group: if
    all grants name stored groups before a [ShareImages.post] or a
    [ShareImages.delete], they do afterwards, whatever the request and
    however it ends. *)
Theorem ShareImages_keeps_grants_in_groups (r : Request) (st : Store) :
  grants_in_groups st ->
  grants_in_groups (store_after (ShareImages.post r) st)
  ∧ grants_in_groups (store_after (ShareImages.delete r) st).
Proof.
  intros Hgr. split.
  - destruct (ShareImages.post_invalid (req_data r)) eqn:Hinv.
    { by rewrite post_not_valid. }
    unfold store_after, respond.
    rewrite post_valid by done.
    destruct (for_each _ _ st) as [o st'] eqn:Hrun.
    assert (HP : grants_in_groups st' ∧ groups st' = groups st).
    { revert Hrun.
      apply (for_each_preserves (fun s => grants_in_groups s ∧ groups s = groups st));
        [|done].
      intros i st1 o1 st2 _ [H1 H2] Hbody.
      destruct (post_image_keeps_grants_in_groups r i st1 st2 o1 Hbody H1) as [H3 H4].
      split; [done | congruence]. }
    destruct o as [[]|e]; apply HP.
  - unfold store_after, respond.
    destruct (ShareImages.delete_invalid (req_data r)) eqn:Hinv.
    { unfold ShareImages.delete. rewrite Hinv. done. }
    rewrite delete_valid by done.
    destruct (for_each _ _ st) as [o st'] eqn:Hrun.
    assert (HP : grants_in_groups st' ∧ groups st' = groups st).
    { revert Hrun.
      apply (for_each_preserves (fun s => grants_in_groups s ∧ groups s = groups st));
        [|done].
      intros i st1 o1 st2 _ [H1 H2] Hbody. rewrite delete_image_run in Hbody.
      destruct (is_owner r (ObjImage i)); injection Hbody as <- <-; [|done].
      split; [|done]. intros a b Hin. simpl in Hin |- *.
      apply elem_of_revoke_all in Hin as [Hin _]. by apply (H1 a b). }
    destruct o as [[]|e]; apply HP.
Qed.

Lemma ShareImages_keeps_grants_in_groups_witness :
  grants_in_groups (store_after (ShareImages.post
                                   (grant_request Demo.alice [1] [2] (Some "true"))) Demo.store0)
  ∧ grants_in_groups (store_after (ShareImages.delete
                                     (grant_request Demo.alice [1] [2] (Some "true")))
                                  Demo.store0).
Proof.
  apply (ShareImages_keeps_grants_in_groups (grant_request Demo.alice [1] [2] (Some "true"))
           Demo.store0).
  intros g i Hin. simpl in Hin. by apply not_elem_of_empty in Hin.
Defined.

(** X21. The membership endpoint keeps every membership on a stored group:
    if all memberships name stored groups before a [JoinGroup.post] or a
    [JoinGroup.delete], they do afterwards, whatever the request and
    however it ends. *)
Theorem JoinGroup_keeps_memberships_in_groups (r : Request) (name : string) (st : Store) :
  memberships_in_groups st ->
  memberships_in_groups (store_after (JoinGroup.post r name) st)
  ∧ memberships_in_groups (store_after (JoinGroup.delete r name) st).
Proof.
  intros Hmem. unfold store_after, respond.
  rewrite JoinGroup_post_run, JoinGroup_delete_run.
  destruct (in_group_named st (req_user r) name); [|by split].
  destruct (d_email (req_data r)) as [email|]; [|by split].
  destruct (users_with_email st email) as [|u [|u' lu]]; [by split| |by split].
  destruct (groups_named st name) as [|g [|g' lg]] eqn:Hg; [by split| |by split].
  assert (Hgin : In g (groups_named st name)) by (rewrite Hg; simpl; auto).
  apply groups_named_In in Hgin as [Hgin _].
  simpl. split; intros a b Hin; simpl in Hin |- *.
  - apply elem_of_union in Hin as [Hin|Hin]; [|by apply (Hmem a b)].
    apply elem_of_singleton in Hin. injection Hin as -> ->. by apply in_map.
  - apply elem_of_difference in Hin as [Hin _]. by apply (Hmem a b).
Qed.

Lemma JoinGroup_keeps_memberships_in_groups_witness :
  memberships_in_groups (store_after (JoinGroup.post (Demo.join Demo.bob "carol@example.org")
                                                     "team") Demo.store0)
  ∧ memberships_in_groups (store_after (JoinGroup.delete (Demo.join Demo.bob "carol@example.org")
                                                         "team") Demo.store0).
Proof.
  apply (JoinGroup_keeps_memberships_in_groups (Demo.join Demo.bob "carol@example.org")
           "team" Demo.store0).
  intros u g Hin. simpl in Hin. apply elem_of_singleton in Hin.
  injection Hin as -> ->. simpl. auto.
Defined.

(** ** The media redirect *)

Lemma split_no_sep (sep : ascii) (s x : string) :
  In x (Py.split sep s) -> has_char sep x = false.
Proof.
  revert x. induction s as [|c s IH]; simpl; intros x Hx.
  - destruct Hx as [<-|[]]. done.
  - destruct (Ascii.eqb c sep) eqn:Hc.
    + destruct Hx as [<-|Hx]; [done | by apply IH].
    + destruct (Py.split sep s) as [|h t] eqn:Hs.
      * destruct Hx as [<-|[]]. simpl. by rewrite Hc.
      * destruct Hx as [<-|Hx].
        -- simpl. rewrite Hc. simpl. apply IH. by left.
        -- apply IH. by right.
Qed.

Lemma split_not_nil (sep : ascii) (s : string) : Py.split sep s ≠ [].
Proof.
  destruct s as [|c s]; simpl; [done|].
  destruct (Ascii.eqb c sep); [done|]. by destruct (Py.split sep s).
Qed.

Lemma last_item_In (l : list string) : l ≠ [] -> In (Py.last_item l) l.
Proof.
  unfold Py.last_item. induction l as [|x l IH]; [done|]. intros _.
  destruct l as [|y l]; [by left|]. right. by apply IH.
Qed.

Lemma lstrip_no_char (c : ascii) (s : string) :
  has_char c s = false -> Py.lstrip (Ascii.eqb c) s = s.
Proof.
  destruct s as [|a s]; simpl; [done|]. intros H.
  apply orb_false_iff in H as [H _]. rewrite Ascii.eqb_sym in H. by rewrite H.
Qed.

Lemma rstrip_no_char (c : ascii) (s : string) :
  has_char c s = false -> Py.rstrip (Ascii.eqb c) s = s.
Proof.
  induction s as [|a s IH]; simpl; [done|]. intros H.
  apply orb_false_iff in H as [Ha Hs]. rewrite Ascii.eqb_sym in Ha.
  rewrite Ha, IH by done. done.
Qed.

Lemma file_name_no_slash (image : Image) : has_char slash (file_name image) = false.
Proof.
  unfold file_name. apply (split_no_sep slash (Py.strip_char slash (image_file image))).
  apply last_item_In, split_not_nil.
Qed.

(** X22. When the environment names no bucket, or a blank one, every 200
    of [GetImage.get] redirects to [/protected_media/] followed by the last
    segment of the stored path of the requested image: the file name holds
    no slash, so the target lies directly in the protected directory, and
    the signing service is not consulted. *)
Theorem GetImage_get_local_redirect (env : Environ) (r : Request) (k : nat) (st : Store) :
  no_bucket env ->
  status (response_of (GetImage.get env r k) st) = 200 ->
  ∃ i, In i (images st) ∧ image_id i = k
       ∧ headers (response_of (GetImage.get env r k) st)
         = [("Content-Type", ""); ("Method", "GET");
            ("X-Accel-Redirect", "/protected_media/" ++ file_name i)]%string
       ∧ has_char slash (file_name i) = false.
Proof.
  intros Hnb. unfold response_of, respond, GetImage.get, mbind, M_bind.
  destruct (GetImage.get_object r k st) as [[i|e] st'] eqn:Hobj; [|by destruct e].
  intros _. apply GetImage_get_object_ok in Hobj as (_ & Hi & Hk & _).
  exists i. split_and!; [done | done | | apply file_name_no_slash].
  simpl. unfold GetImage.redirect_path. fold (file_name i).
  unfold no_bucket in Hnb. rewrite Hnb. simpl.
  unfold Py.strip_char.
  rewrite lstrip_no_char, rstrip_no_char by apply file_name_no_slash. done.
Qed.

Lemma GetImage_get_local_redirect_witness :
  ∃ i, In i (images Demo.store0) ∧ image_id i = 1
       ∧ headers (response_of (GetImage.get
                                 (mkEnviron (Some "  ") None (fun _ _ _ _ _ _ => "signed"%string))
                                 (Demo.get_by Demo.alice) 1) Demo.store0)
         = [("Content-Type", ""); ("Method", "GET");
            ("X-Accel-Redirect", "/protected_media/" ++ file_name i)]%string
       ∧ has_char slash (file_name i) = false.
Proof.
  apply (GetImage_get_local_redirect
           (mkEnviron (Some "  ") None (fun _ _ _ _ _ _ => "signed"%string))
           (Demo.get_by Demo.alice) 1 Demo.store0).
  - reflexivity.
  - reflexivity.
Defined.

(** ** Retrievals *)

(** X23. No retrieval changes the store, whatever it answers: the media
    endpoint, the image detail, the image listing, the annotation detail
    and the project detail all leave it as it was. *)
Theorem retrievals_leave_the_store (cfg : Settings) (env : Environ) (r : Request)
    (k : nat) (st : Store) :
  store_after (GetImage.get env r k) st = st
  ∧ store_after (ImageDetail.get r k) st = st
  ∧ store_after (ImageList.get r) st = st
  ∧ store_after (AnnotationsJsonDetail.get cfg r k) st = st
  ∧ store_after (ProjectDetail.get r k) st = st.
Proof.
  split_and!.
  - unfold GetImage.get, GetImage.get_object. unfold_monad. simpl_model.
    destruct (List.filter _ (images st)) as [|x [|y l]]; [done| |done].
    by destruct (forallb _ GetImage.permission_classes).
  - unfold ImageDetail.get, ImageDetail.get_object. unfold_monad. simpl_model.
    destruct (List.filter _ (images st)) as [|x [|y l]]; [done| |done].
    by destruct (forallb _ ImageDetail.permission_classes).
  - done.
  - unfold AnnotationsJsonDetail.get. unfold_monad. simpl_model.
    destruct (List.filter _ (annotations st)) as [|x [|y l]]; [done| |done].
    by destruct (forallb _ (DEFAULT_PERMISSION_CLASSES cfg)).
  - done.
Qed.

(** X24. With unique primary keys, [get_object_or_404] either returns the
    one stored row that carries the key or raises [Http404] when no row
    does; it never raises anything else and never changes the store. *)
Theorem get_object_or_404_cases (A : Type) `{DjangoModel A} (st : Store) (k : nat) :
  unique_pk (A:=A) st ->
  (∃ x, In x (objects_all st) ∧ pk x = k ∧ get_object_or_404 A k st = (Ok x, st))
  ∨ ((∀ y, In y (objects_all (A:=A) st) -> pk y ≠ k)
     ∧ get_object_or_404 A k st = (Raise Http404, st)).
Proof.
  intros Hnd. unfold get_object_or_404, try_except_404, objects_get.
  destruct (List.filter (fun x : A => pk x =? k) (objects_all st)) as [|x l] eqn:Hf.
  - right. split.
    + intros y Hy Hk.
      assert (Hin : In y (List.filter (fun x : A => pk x =? k) (objects_all st)))
        by (apply filter_In; split; [done | by apply Nat.eqb_eq]).
      by rewrite Hf in Hin.
    + unfold is_DoesNotExist. by rewrite bool_decide_eq_true_2.
  - left. assert (Hin : In x (List.filter (fun x : A => pk x =? k) (objects_all st)))
      by (rewrite Hf; simpl; auto).
    apply filter_In in Hin as [Hin Hk]. apply Nat.eqb_eq in Hk. subst k.
    rewrite (filter_pk st x Hnd Hin) in Hf. injection Hf as <-. eauto.
Qed.

Lemma get_object_or_404_cases_witness :
  (∃ x, In x (objects_all Demo.store0) ∧ pk x = 2
        ∧ get_object_or_404 Group 2 Demo.store0 = (Ok x, Demo.store0))
  ∨ ((∀ y, In y (objects_all (A:=Group) Demo.store0) -> pk y ≠ 2)
     ∧ get_object_or_404 Group 2 Demo.store0 = (Raise Http404, Demo.store0)).
Proof.
  apply (get_object_or_404_cases Group Demo.store0 2).
  apply (bool_decide_unpack _). vm_compute. exact I.
Defined.

(** ** Deleting an image, creating a project *)

Lemma NoDup_map_filter {A} (key : A -> nat) (p : A -> bool) (l : list A) :
  NoDup (List.map key l) -> NoDup (List.map key (List.filter p l)).
Proof.
  induction l as [|a l IH]; simpl; [done|]. intros Hnd.
  apply NoDup_cons in Hnd as [Hna Hnd].
  destruct (p a); simpl; [|by apply IH].
  apply NoDup_cons. split; [|by apply IH].
  intros Hin. apply Hna. apply list_elem_of_In in Hin. apply list_elem_of_In.
  apply in_map_iff in Hin as (y & Hy & Hin). apply filter_In in Hin as [Hin _].
  apply in_map_iff. eauto.
Qed.

(** X25. When the owner deletes a stored image, that image and no other
    leaves the table: the keys stay unique, every other image is still
    stored, and its owner still retrieves it with 200. *)
Theorem ImageDetail_delete_removes_only_that_image (st : Store) (r : Request) (i : Image) :
  unique_pk (A:=Image) st -> In i (images st) -> owns (req_user r) i ->
  unique_pk (A:=Image) (store_after (ImageDetail.delete r (image_id i)) st)
  ∧ (∀ j, In j (images (store_after (ImageDetail.delete r (image_id i)) st))
          ↔ In j (images st) ∧ image_id j ≠ image_id i)
  ∧ ∀ j r', In j (images st) -> image_id j ≠ image_id i -> owns (req_user r') j ->
        response_of (ImageDetail.get r' (image_id j))
                    (store_after (ImageDetail.delete r (image_id i)) st)
        = Response_data 200 (BImage j).
Proof.
  intros Hnd Hin Ho. apply is_owner_image_spec in Ho.
  unfold store_after, respond, ImageDetail.delete, mbind, M_bind.
  rewrite (ImageDetail_get_object_found st r i Hnd Hin), Ho. simpl.
  set (st' := set_images _ st).
  assert (Hnd' : unique_pk (A:=Image) st').
  { unfold unique_pk in *. simpl_model. simpl. by apply NoDup_map_filter. }
  assert (Hmem : ∀ j, In j (images st') ↔ In j (images st) ∧ image_id j ≠ image_id i).
  { intros j. simpl. rewrite filter_In, negb_true_iff, Nat.eqb_neq. done. }
  split_and!; [done | done |].
  intros j r' Hj Hne Hoj. apply is_owner_image_spec in Hoj.
  unfold response_of, respond, ImageDetail.get, mbind, M_bind.
  rewrite (ImageDetail_get_object_found st' r' j Hnd'), Hoj; [done|].
  by apply Hmem.
Qed.

Lemma ImageDetail_delete_removes_only_that_image_witness :
  unique_pk (A:=Image) (store_after (ImageDetail.delete (Demo.delete_by Demo.alice) 1)
                                    Demo.store2)
  ∧ (∀ j, In j (images (store_after (ImageDetail.delete (Demo.delete_by Demo.alice) 1)
                                    Demo.store2))
          ↔ In j (images Demo.store2) ∧ image_id j ≠ 1)
  ∧ ∀ j r', In j (images Demo.store2) -> image_id j ≠ 1 -> owns (req_user r') j ->
        response_of (ImageDetail.get r' (image_id j))
                    (store_after (ImageDetail.delete (Demo.delete_by Demo.alice) 1) Demo.store2)
        = Response_data 200 (BImage j).
Proof.
  apply (ImageDetail_delete_removes_only_that_image Demo.store2
           (Demo.delete_by Demo.alice) Demo.img1).
  - apply (bool_decide_unpack _). vm_compute. exact I.
  - simpl. auto.
  - reflexivity.
Defined.

(** X26. A delete or a retrieval through the image-detail endpoint for a
    key that no image carries is answered 404, whoever asks, and changes
    nothing. *)
Theorem ImageDetail_unknown_key (st : Store) (r : Request) (k : nat) :
  (∀ j, In j (images st) -> image_id j ≠ k) ->
  respond (ImageDetail.delete r k) st = (Response_status 404, st)
  ∧ respond (ImageDetail.get r k) st = (Response_status 404, st).
Proof.
  intros Habs. unfold respond, ImageDetail.delete, ImageDetail.get, mbind, M_bind.
  by rewrite ImageDetail_get_object_absent.
Qed.

Lemma ImageDetail_unknown_key_witness :
  respond (ImageDetail.delete (Demo.delete_by Demo.alice) 9) Demo.store0
    = (Response_status 404, Demo.store0)
  ∧ respond (ImageDetail.get (Demo.delete_by Demo.alice) 9) Demo.store0
    = (Response_status 404, Demo.store0).
Proof.
  apply (ImageDetail_unknown_key Demo.store0 (Demo.delete_by Demo.alice) 9).
  simpl. intros j [<-|[<-|[]]]; discriminate.
Defined.

(** X27. [CreateProject.post] answers 201 or 400.  On 201 the store holds
    one more project, under a key no project carried, owned by the
    requester, and it is the body of the response; on 400 nothing changes.
    Either way project keys stay unique and every earlier project is still
    stored. *)
Theorem CreateProject_post_cases (valid : Store -> Data -> bool) (st : Store) (r : Request) :
  unique_pk (A:=Project) st ->
  unique_pk (A:=Project) (store_after (CreateProject.post valid r) st)
  ∧ (∀ p, In p (projects st) -> In p (projects (store_after (CreateProject.post valid r) st)))
  ∧ ((respond (CreateProject.post valid r) st = (Response_data 400 BErrors, st))
     ∨ ∃ p, response_of (CreateProject.post valid r) st = Response_data 201 (BProject p)
            ∧ project_owner_email p = user_email (req_user r)
            ∧ (∀ q, In q (projects st) -> project_id q ≠ project_id p)
            ∧ projects (store_after (CreateProject.post valid r) st) = projects st ++ [p]).
Proof.
  intros Hnd. unfold response_of, store_after, respond, CreateProject.post.
  unfold_monad. destruct (valid st (req_data r)); simpl.
  - split_and!.
    + unfold unique_pk. simpl. apply unique_pk_snoc; [exact Hnd | apply next_pk_not_in].
    + intros p Hp. apply in_or_app. by left.
    + right. eexists. split_and!; [reflexivity | done | | done].
      intros q Hq. simpl. apply next_pk_fresh. by apply in_map.
  - split_and!; [done | done | by left].
Qed.

Lemma CreateProject_post_cases_witness :
  unique_pk (A:=Project) (store_after (CreateProject.post (fun _ _ => true)
                                         (Demo.create_group Demo.bob "atlas")) Demo.store0)
  ∧ (∀ p, In p (projects Demo.store0) ->
          In p (projects (store_after (CreateProject.post (fun _ _ => true)
                                         (Demo.create_group Demo.bob "atlas")) Demo.store0)))
  ∧ ((respond (CreateProject.post (fun _ _ => true) (Demo.create_group Demo.bob "atlas"))
              Demo.store0
      = (Response_data 400 BErrors, Demo.store0))
     ∨ ∃ p, response_of (CreateProject.post (fun _ _ => true)
                           (Demo.create_group Demo.bob "atlas")) Demo.store0
            = Response_data 201 (BProject p)
            ∧ project_owner_email p = user_email Demo.bob
            ∧ (∀ q, In q (projects Demo.store0) -> project_id q ≠ project_id p)
            ∧ projects (store_after (CreateProject.post (fun _ _ => true)
                                       (Demo.create_group Demo.bob "atlas")) Demo.store0)
              = projects Demo.store0 ++ [p]).
Proof.
  apply (CreateProject_post_cases (fun _ _ => true) Demo.store0
           (Demo.create_group Demo.bob "atlas")).
  apply (bool_decide_unpack _). vm_compute. exact I.
Defined.

(** ** Revoke, then retrieve *)

(** X28. After a revoke answered 200, a GET of the media of a referenced
    image is answered 403 for every user who does not own the image, when
    the image is not public and every group through which the user held a
    view grant on it was listed in the revoke. *)
Theorem ShareImages_delete_then_GetImage (env : Environ) (r q : Request) (st : Store)
    (i : Image) :
  ShareImages.delete_invalid (req_data r) = false ->
  (∀ j, In j (referenced_images st r) -> owns (req_user r) j) ->
  unique_pk (A:=Image) st -> In i (referenced_images st r) -> req_method q = GET ->
  ¬ owns (req_user q) i -> ¬ public st i ->
  (∀ g, (user_id (req_user q), g) ∈ user_groups st -> (g, image_id i) ∈ view_obj st ->
        ∃ gr, In gr (listed_groups st r) ∧ group_id gr = g) ->
  respond (GetImage.get env q (image_id i)) (store_after (ShareImages.delete r) st)
  = (Response_status 403, store_after (ShareImages.delete r) st).
Proof.
  intros Hv Ho Hnd Hi Hget Hnot Hnp Hall.
  unfold store_after, respond at 2 3.
  rewrite delete_valid, delete_loop_groups by done. simpl.
  set (st' := set_view_obj _ st).
  assert (Hin : In i (images st)) by (by apply filter_In in Hi as [Hi _]).
  assert (Hview : ¬ can_view st' (req_user q) i).
  { intros [H|[(g & Hm & Hg)|H]].
    - done.
    - simpl in Hm, Hg. apply elem_of_revoke_batch in Hg as [Hg Hno].
      destruct (Hall g Hm Hg) as (gr & Hgr & <-). apply Hno. exists gr, i. done.
    - unfold public in H. simpl in H. apply elem_of_revoke_batch in H as [H _]. done. }
  unfold respond, GetImage.get, mbind, M_bind.
  rewrite (GetImage_get_object_found st' q i Hnd Hin).
  destruct (forallb _ GetImage.permission_classes) eqn:Hp; [|done].
  exfalso. apply Hview. apply GetImage_predicate_spec; [by rewrite Hget | done].
Qed.

Lemma ShareImages_delete_then_GetImage_witness :
  respond (GetImage.get Demo.env0 (Demo.get_by Demo.bob) 1)
          (store_after (ShareImages.delete (revoke_request Demo.alice [1] [2])) Demo.store1)
  = (Response_status 403,
     store_after (ShareImages.delete (revoke_request Demo.alice [1] [2])) Demo.store1).
Proof.
  apply (ShareImages_delete_then_GetImage Demo.env0 (revoke_request Demo.alice [1] [2])
           (Demo.get_by Demo.bob) Demo.store1 Demo.img1).
  - reflexivity.
  - simpl. intros j [<-|[]]. reflexivity.
  - apply (bool_decide_unpack _). vm_compute. exact I.
  - simpl. auto.
  - reflexivity.
  - unfold owns. simpl. discriminate.
  - unfold public. simpl. intros H. apply elem_of_singleton in H. discriminate H.
  - intros g Hm Hg. simpl in Hg. apply elem_of_singleton in Hg. injection Hg as ->.
    exists Demo.team. split; [simpl; auto | reflexivity].
Defined.
